(** * Rotary switch decoder (package [switches])

    A shallow embedding of the rotary encoder / push button decoder:
    the [RotarySwitch] record, the loop bodies of the two goroutines
    [rotaryHandler] and [buttonHandler], the constructor
    [NewRotarySwitch] and the two setters.

    The GPIO pins are the environment: every iteration of a handler
    starts when [WaitForEdge] returns, and the levels it then reads from
    the pins are the inputs of that iteration.  An iteration of a handler
    is taken as one atomic step, so runs are interleavings of whole
    iterations, of receives by the consumer and of setter calls. *)

From Stdlib Require Import ZArith List Bool Lia.
From Stdlib Require Strings.Byte.
Import ListNotations.
Open Scope Z_scope.

(** ** Go's [int] *)

Module GoInt.

(** [int] as on a 64-bit target: two's complement, silent wrap-around. *)
Definition bits : Z := 64.
Definition min_int : Z := - 2 ^ (bits - 1).
Definition max_int : Z := 2 ^ (bits - 1) - 1.

Definition in_range (x : Z) : Prop := min_int <= x <= max_int.

Definition wrap (x : Z) : Z := (x + 2 ^ (bits - 1)) mod 2 ^ bits - 2 ^ (bits - 1).

Definition add (x y : Z) : Z := wrap (x + y).
Definition sub (x y : Z) : Z := wrap (x - y).

End GoInt.

(** ** [gpio.Level] *)

Module Gpio.

Inductive Level : Type := Low | High.

Definition is_high (l : Level) : bool :=
  match l with High => true | Low => false end.

Definition is_low (l : Level) : bool := negb (is_high l).

End Gpio.
Import Gpio.

(** ** Events and the event channel *)

Inductive RotarySwitchValue : Type :=
| DirectionCCW
| DirectionCW
| ButtonPress
| ButtonRelease.

Definition stateInvalid : Z := 0xf.

(** A buffered channel: the buffered values, oldest first, and the
    capacity it was made with. *)
Record chan : Type := mkChan {
  buf : list RotarySwitchValue;
  cap : Z
}.

Definition make_chan (size : Z) : chan := mkChan [] size.

(** [len(c)] *)
Definition len (c : chan) : Z := Z.of_nat (length (buf c)).

(** [c <- v]: [None] when the buffer is full, where the sender blocks. *)
Definition send (c : chan) (v : RotarySwitchValue) : option chan :=
  if len c <? cap c then Some (mkChan (buf c ++ [v]) (cap c)) else None.

(** [<-c] by the consumer: [None] when there is nothing to receive. *)
Definition recv (c : chan) : option (RotarySwitchValue * chan) :=
  match buf c with
  | [] => None
  | v :: rest => Some (v, mkChan rest (cap c))
  end.

(** ** The switch *)

(** The fields of [RotarySwitch] but the three pins, which are the
    environment. *)
Record RotarySwitch : Type := mkRotarySwitch {
  ch : chan;
  channelSize : Z;
  position : Z;
  wrap_position : bool;
  max_positions : Z;
  state : Z;
  last_button : Level;
  loose : bool;
  terminating : bool
}.

Definition set_ch (sw : RotarySwitch) (c : chan) : RotarySwitch :=
  mkRotarySwitch c (channelSize sw) (position sw) (wrap_position sw)
    (max_positions sw) (state sw) (last_button sw) (loose sw) (terminating sw).

Definition set_position (sw : RotarySwitch) (p : Z) : RotarySwitch :=
  mkRotarySwitch (ch sw) (channelSize sw) p (wrap_position sw)
    (max_positions sw) (state sw) (last_button sw) (loose sw) (terminating sw).

Definition set_state (sw : RotarySwitch) (s : Z) : RotarySwitch :=
  mkRotarySwitch (ch sw) (channelSize sw) (position sw) (wrap_position sw)
    (max_positions sw) s (last_button sw) (loose sw) (terminating sw).

Definition set_last_button (sw : RotarySwitch) (l : Level) : RotarySwitch :=
  mkRotarySwitch (ch sw) (channelSize sw) (position sw) (wrap_position sw)
    (max_positions sw) (state sw) l (loose sw) (terminating sw).

(** [SetLooseMode], [SetWrap], [Position]. *)
Definition SetLooseMode (sw : RotarySwitch) (mode : bool) : RotarySwitch :=
  mkRotarySwitch (ch sw) (channelSize sw) (position sw) (wrap_position sw)
    (max_positions sw) (state sw) (last_button sw) mode (terminating sw).

Definition SetWrap (sw : RotarySwitch) (mode : bool) : RotarySwitch :=
  mkRotarySwitch (ch sw) (channelSize sw) (position sw) mode
    (max_positions sw) (state sw) (last_button sw) (loose sw) (terminating sw).

Definition Position (sw : RotarySwitch) : Z := position sw.

(** [NewRotarySwitch]: the record it builds ([position] and [terminating]
    take Go's zero values). *)
Definition NewRotarySwitch (maxPositions : Z) : RotarySwitch :=
  let channelSize := 16 in
  {| ch := make_chan channelSize;
     channelSize := channelSize;
     position := 0;
     wrap_position := true;
     max_positions := maxPositions;
     state := stateInvalid;
     last_button := Low;
     loose := true;
     terminating := false |}.

(** ** The handlers *)

(** What one iteration of a handler's [for] loop comes to. *)
Inductive iter : Type :=
| Return                                  (* [terminating] was set: the goroutine ends *)
| Continue (sw : RotarySwitch)            (* back to [WaitForEdge] *)
| Blocked (sw : RotarySwitch) (v : RotarySwitchValue).
                                          (* stuck in [sw.ch <- v] on a full buffer *)

(** The two-bit sample shifted into [sw.state] at the start of an
    iteration of [rotaryHandler]. *)
Definition shift_sample (sw : RotarySwitch) (data_read st_read : Level) : RotarySwitch :=
  let sw := set_state sw (Z.shiftl (Z.land (state sw) 0x03) 2) in
  let sw := if is_high data_read then set_state sw (Z.lor (state sw) 0x01) else sw in
  let sw := if is_high st_read then set_state sw (Z.lor (state sw) 0x02) else sw in
  sw.

(** One iteration of [rotaryHandler], from the return of [WaitForEdge];
    [data_read] and [st_read] are what [sw.data_pin.Read()] and
    [sw.st_pin.Read()] give, in that order. *)
Definition rotaryHandler (sw : RotarySwitch) (data_read st_read : Level) : iter :=
  if terminating sw then Return else
  let sw := shift_sample sw data_read st_read in
  if len (ch sw) =? channelSize sw then Continue sw else
  if (state sw =? 0x06) || (loose sw && (state sw =? 0x07)) then
    let sw := set_position sw (GoInt.add (position sw) 1) in
    let sw :=
      if position sw >=? max_positions sw then
        if wrap_position sw then set_position sw 0
        else set_position sw (max_positions sw)
      else sw in
    match send (ch sw) DirectionCW with
    | None => Blocked sw DirectionCW
    | Some c => Continue (set_state (set_ch sw c) stateInvalid)
    end
  else if state sw =? 0x03 then
    let sw := set_position sw (GoInt.sub (position sw) 1) in
    let sw :=
      if position sw <? 0 then
        if wrap_position sw then set_position sw (GoInt.sub (max_positions sw) 1)
        else set_position sw 0
      else sw in
    match send (ch sw) DirectionCCW with
    | None => Blocked sw DirectionCCW
    | Some c => Continue (set_state (set_ch sw c) stateInvalid)
    end
  else Continue sw.

(** One iteration of [buttonHandler]; [button_read] is what
    [sw.button_pin.Read()] gives. *)
Definition buttonHandler (sw : RotarySwitch) (button_read : Level) : iter :=
  if terminating sw then Return else
  let state := button_read in
  if len (ch sw) <? channelSize sw then
    if is_high state && is_low (last_button sw) then
      match send (ch sw) ButtonRelease with
      | None => Blocked sw ButtonRelease
      | Some c => Continue (set_last_button (set_ch sw c) state)
      end
    else if is_low state && is_high (last_button sw) then
      match send (ch sw) ButtonPress with
      | None => Blocked sw ButtonPress
      | Some c => Continue (set_last_button (set_ch sw c) state)
      end
    else Continue (set_last_button sw state)
  else Continue sw.

(** ** Runs *)

(** What can happen to a switch, one at a time. *)
Inductive action : Type :=
| StateEdge (data_read st_read : Level)   (* an edge on the state pin *)
| ButtonEdge (button_read : Level)        (* an edge on the button pin *)
| Receive                                 (* the consumer takes one event *)
| CallSetLooseMode (mode : bool)
| CallSetWrap (mode : bool).

(** The switch after an iteration: a goroutine that has returned leaves
    it as it is; [None] when a goroutine is stuck in a send. *)
Definition after (sw : RotarySwitch) (r : iter) : option RotarySwitch :=
  match r with
  | Return => Some sw
  | Continue sw' => Some sw'
  | Blocked _ _ => None
  end.

Definition step (sw : RotarySwitch) (a : action) : option RotarySwitch :=
  match a with
  | StateEdge d s => after sw (rotaryHandler sw d s)
  | ButtonEdge b => after sw (buttonHandler sw b)
  | Receive =>
      match recv (ch sw) with
      | Some (_, c) => Some (set_ch sw c)
      | None => Some sw
      end
  | CallSetLooseMode mode => Some (SetLooseMode sw mode)
  | CallSetWrap mode => Some (SetWrap sw mode)
  end.

Fixpoint run (sw : RotarySwitch) (acts : list action) : option RotarySwitch :=
  match acts with
  | [] => Some sw
  | a :: rest =>
      match step sw a with
      | Some sw' => run sw' rest
      | None => None
      end
  end.

(** One turn of the knob is two edges on the state pin, falling then
    rising; the data pin tells the direction (the table in
    [rotaryHandler]): clockwise is state low with data high, then state
    high with data low; counter-clockwise is state low with data low, then
    state high with data high.  [late_data] is the level read on the data
    pin at the second edge of a clockwise turn, [Low] by design. *)
Definition cw_turn (late_data : Level) : list action :=
  [StateEdge High Low; StateEdge late_data High].

Definition ccw_turn : list action :=
  [StateEdge Low Low; StateEdge High High].

(** The actions that are not an iteration of [rotaryHandler]. *)
Definition not_state_edge (a : action) : bool :=
  match a with StateEdge _ _ => false | _ => true end.

Definition keeps_wrap (mode : bool) (a : action) : bool :=
  match a with CallSetWrap m => Bool.eqb m mode | _ => true end.

(** The channel is the one [NewRotarySwitch] made: its capacity is
    [channelSize] and it holds no more than that. *)
Definition chan_ok (sw : RotarySwitch) : Prop :=
  cap (ch sw) = channelSize sw /\ len (ch sw) <= channelSize sw.

(** The weight a pin level contributes to the shift state. *)
Definition level_bit (l : Level) (weight : Z) : Z :=
  if is_high l then weight else 0.

(** The position after a clockwise and after a counter-clockwise step,
    as [rotaryHandler] computes them. *)
Definition position_cw (sw : RotarySwitch) : Z :=
  position
    (let sw := set_position sw (GoInt.add (position sw) 1) in
     if position sw >=? max_positions sw then
       if wrap_position sw then set_position sw 0
       else set_position sw (max_positions sw)
     else sw).

Definition position_ccw (sw : RotarySwitch) : Z :=
  position
    (let sw := set_position sw (GoInt.sub (position sw) 1) in
     if position sw <? 0 then
       if wrap_position sw then set_position sw (GoInt.sub (max_positions sw) 1)
       else set_position sw 0
     else sw).

(** The switch when an iteration of [rotaryHandler] has sent [v]. *)
Definition stepped (sw : RotarySwitch) (v : RotarySwitchValue) (p : Z) : RotarySwitch :=
  {| ch := mkChan (buf (ch sw) ++ [v]) (cap (ch sw));
     channelSize := channelSize sw;
     position := p;
     wrap_position := wrap_position sw;
     max_positions := max_positions sw;
     state := stateInvalid;
     last_button := last_button sw;
     loose := loose sw;
     terminating := terminating sw |}.

(** The invariant of runs that keep wrapping on, and the one of runs that
    keep it off. *)
Definition wrap_inv (sw : RotarySwitch) : Prop :=
  chan_ok sw /\ wrap_position sw = true
  /\ GoInt.in_range (max_positions sw)
  /\ 0 <= position sw < max_positions sw.

Definition nowrap_inv (sw : RotarySwitch) : Prop :=
  chan_ok sw /\ wrap_position sw = false
  /\ max_positions sw < GoInt.max_int
  /\ 0 <= position sw <= max_positions sw.

Definition not_button_edge (a : action) : bool :=
  match a with ButtonEdge _ => false | _ => true end.

Definition is_direction (v : RotarySwitchValue) : Prop :=
  v = DirectionCW \/ v = DirectionCCW.

(** A running switch whose button goroutine has not seen an edge yet. *)
Definition unpressed (sw : RotarySwitch) : Prop :=
  chan_ok sw /\ terminating sw = false /\ last_button sw = Low
  /\ Forall is_direction (buf (ch sw)).

(** Two switches met in the proofs.  [nowrap_at_zero]: built for 4
    positions, wrapping switched off, one falling edge of a
    counter-clockwise turn seen.  [full_switch]: built for 24 positions,
    sixteen clockwise turns decoded and none received, then the falling
    edge of one more clockwise turn. *)
Definition nowrap_at_zero : RotarySwitch :=
  {| ch := mkChan [] 16; channelSize := 16; position := 0;
     wrap_position := false; max_positions := 4; state := 0xc;
     last_button := Low; loose := true; terminating := false |}.

Definition full_switch : RotarySwitch :=
  {| ch := mkChan (repeat DirectionCW 16) 16; channelSize := 16;
     position := 16; wrap_position := true; max_positions := 24;
     state := 0xd; last_button := Low; loose := true;
     terminating := false |}.

(** ** The event stream and [Close] *)

(** What the consumer has taken out of the channel along a run, oldest
    first. *)
Definition taken (sw : RotarySwitch) (a : action) : list RotarySwitchValue :=
  match a, recv (ch sw) with
  | Receive, Some (v, _) => [v]
  | _, _ => []
  end.

Fixpoint received (sw : RotarySwitch) (acts : list action) : list RotarySwitchValue :=
  match acts with
  | [] => []
  | a :: rest =>
      match step sw a with
      | None => []
      | Some sw' => taken sw a ++ received sw' rest
      end
  end.

(** Everything enqueued along a run that starts on an empty channel and
    ends in [sw']: what was received, then what is still buffered. *)
Definition stream (sw : RotarySwitch) (acts : list action) (sw' : RotarySwitch)
  : list RotarySwitchValue :=
  received sw acts ++ buf (ch sw').

(** Button events taking turns: a release only on a button last seen
    [Low], a press only on one last seen [High]. *)
Fixpoint alternates (last : Level) (l : list RotarySwitchValue) : bool :=
  match l with
  | [] => true
  | ButtonRelease :: rest => is_low last && alternates High rest
  | ButtonPress :: rest => is_high last && alternates Low rest
  | _ :: rest => alternates last rest
  end.

Fixpoint level_after (last : Level) (l : list RotarySwitchValue) : Level :=
  match l with
  | [] => last
  | ButtonRelease :: rest => level_after High rest
  | ButtonPress :: rest => level_after Low rest
  | _ :: rest => level_after last rest
  end.


Definition is_edge (a : action) : bool :=
  match a with StateEdge _ _ | ButtonEdge _ => true | _ => false end.

(** The switch with what [Close] touches besides [terminating]: whether
    the pins are still held ([st_pin != nil]) and whether the channel is
    still open. *)
Record Handle : Type := mkHandle {
  switch : RotarySwitch;
  pins_held : bool;
  ch_open : bool
}.

Definition set_terminating (sw : RotarySwitch) (b : bool) : RotarySwitch :=
  mkRotarySwitch (ch sw) (channelSize sw) (position sw) (wrap_position sw)
    (max_positions sw) (state sw) (last_button sw) (loose sw) b.

Definition Close (h : Handle) : Handle :=
  if negb (pins_held h) then h
  else
    {| switch := set_terminating (switch h) true;
       pins_held := false;
       ch_open := false |}.

(** * The IO expander and the LCD drivers *)

(** How a call ends: normally, in a run-time panic (an index out of
    range, a negative shift count), or in [log.Fatal], which ends the
    program. *)
Inductive outcome (A : Type) : Type :=
| Done (a : A)
| Panic
| Fatal.

Arguments Done {A} a.
Arguments Panic {A}.
Arguments Fatal {A}.

Definition bind {A B : Type} (m : outcome A) (f : A -> outcome B) : outcome B :=
  match m with
  | Done a => f a
  | Panic => Panic
  | Fatal => Fatal
  end.

Notation "x <- m ;; k" := (bind m (fun x => k))
  (at level 61, m at next level, right associativity).

(** [byte(x)], and the wrap-around of arithmetic on [byte]. *)
Definition to_byte (x : Z) : Z := x mod 256.

(** [l[i]] on a slice or an array. *)
Definition index {A : Type} (l : list A) (i : Z) : outcome A :=
  if i <? 0 then Panic
  else match nth_error l (Z.to_nat i) with
       | Some x => Done x
       | None => Panic
       end.

(** [l[i] = v], for an index known to be in range. *)
Fixpoint store {A : Type} (l : list A) (i : nat) (v : A) : list A :=
  match l, i with
  | [], _ => []
  | _ :: rest, O => v :: rest
  | x :: rest, S i' => x :: store rest i' v
  end.

(** [conn.Conn], seen from the driver: the frames given to [Tx] so far,
    oldest first.  The device at the other end is [respond]: from the
    frames sent before and the frame sent now, the byte a one-byte read
    gets back and the error [Tx] returns. *)
Definition conn : Type := list (list Z).

Definition responder (error : Type) : Type :=
  conn -> list Z -> Byte.byte * option error.

Definition byte_value (b : Byte.byte) : Z := Z.of_N (Byte.to_N b).

Definition Tx {error : Type} (respond : responder error) (c : conn) (w : list Z)
  : conn * Z * option error :=
  (c ++ [w], byte_value (fst (respond c w)), snd (respond c w)).

Module Mcp23008.

Definition IODIR : Z := 0.
Definition IPOL : Z := 1.
Definition GPINTEN : Z := 2.
Definition DEFVAL : Z := 3.
Definition INTCON : Z := 4.
Definition IOCON : Z := 5.
Definition GPPU : Z := 6.
Definition INTF : Z := 7.
Definition INTCAP : Z := 8.
Definition GPIO : Z := 9.
Definition OLAT : Z := 10.

Definition maskOn : list Z :=
  [0x01; 0x02; 0x04; 0x08; 0x10; 0x20; 0x40; 0x80].

Definition maskOff : list Z :=
  [0xfe; 0xfd; 0xfb; 0xf7; 0xef; 0xdf; 0xbf; 0x7f].

Definition SetBit (value bit : Z) (on : bool) : outcome Z :=
  if on then m <- index maskOn bit ;; Done (Z.lor value m)
  else m <- index maskOff bit ;; Done (Z.land value m).

Definition WriteRegister {error : Type} (respond : responder error)
    (c : conn) (register value : Z) : conn * option error :=
  let '(c, _, err) := Tx respond c [register; value] in
  (c, err).

Definition ReadRegister {error : Type} (respond : responder error)
    (c : conn) (register : Z) : conn * Z * option error :=
  Tx respond c [register].

Definition ReadGPIO {error : Type} (respond : responder error) (c : conn)
  : conn * Z * option error :=
  ReadRegister respond c GPIO.

Definition WriteGPIO {error : Type} (respond : responder error)
    (c : conn) (byteval : Z) : conn * Z * option error :=
  let '(c, err) := WriteRegister respond c GPIO byteval in
  (c, 1, err).

(** [1 << pin] where the constant takes the type [byte] of the other
    operand of [&]: bits shifted past the eighth are lost, and a negative
    count panics. *)
Definition ReadPullup {error : Type} (respond : responder error)
    (c : conn) (pin : Z) : outcome (conn * bool * option error) :=
  let '(c, cur, err) := ReadRegister respond c GPPU in
  if pin <? 0 then Panic
  else
    Done (c,
          Z.land cur (to_byte (Z.shiftl 1 pin)) =? to_byte (Z.shiftl 1 pin),
          err).

Definition WriteGPIOPin {error : Type} (respond : responder error)
    (c : conn) (pin : Z) (on : bool) : outcome (conn * Z * option error) :=
  let '(c, current, err) := ReadGPIO respond c in
  newval <- SetBit current pin on ;;
  if newval =? current then Done (c, current, None)
  else
    let '(c, _, err) := WriteGPIO respond c newval in
    Done (c, current, err).

(** [SetPullup]: the error returned is the one of the read. *)
Definition SetPullup {error : Type} (respond : responder error)
    (c : conn) (pin : Z) (state : bool) : outcome (conn * option error) :=
  let '(c, current, err) := ReadRegister respond c GPPU in
  new <- SetBit current pin state ;;
  if new =? current then Done (c, None)
  else
    let '(c, _) := WriteRegister respond c GPPU new in
    Done (c, err).

End Mcp23008.

Module I2cBackpack.

Definition rsPin : Z := 1.
Definition enablePin : Z := 2.
Definition backlightPin : Z := 7.
Definition modeCommand : bool := false.
Definition modeData : bool := true.
Definition cmdByte : Z := 0xfe.

Definition write4Bits {error : Type} (respond : responder error)
    (c : conn) (value : Z) : conn * option error :=
  let '(c, writeVal, err) := Mcp23008.ReadGPIO respond c in
  let value := Z.land value 0x0f in
  let writeVal := Z.land writeVal 0x83 in
  let writeVal := Z.lor writeVal (to_byte (Z.shiftl value 3)) in
  match err with
  | Some e => (c, Some e)
  | None =>
      let '(c, _, err) := Mcp23008.WriteGPIO respond c writeVal in
      let writeVal := Z.lor writeVal 0x04 in
      let '(c, _, err) := Mcp23008.WriteGPIO respond c writeVal in
      let writeVal := Z.land writeVal 0xfb in
      let '(c, _, err) := Mcp23008.WriteGPIO respond c writeVal in
      (c, err)
  end.

(** The loop of [SendCommand]: two nibbles per command, high one first,
    errors dropped. *)
Fixpoint send_commands {error : Type} (respond : responder error)
    (c : conn) (commands : list Z) : conn :=
  match commands with
  | [] => c
  | command :: rest =>
      let '(c, _) := write4Bits respond c (to_byte (Z.shiftr command 4)) in
      let '(c, _) := write4Bits respond c (to_byte command) in
      send_commands respond c rest
  end.

Definition SendCommand {error : Type} (respond : responder error)
    (c : conn) (commands : list Z) : outcome (conn * option error) :=
  r <- Mcp23008.WriteGPIOPin respond c rsPin modeCommand ;;
  let '(c, _, err) := r in
  Done (send_commands respond c commands, err).

(** The loop of [Write]: the error of the high nibble is overwritten by
    the one of the low nibble, which ends the loop. *)
Fixpoint write_bytes {error : Type} (respond : responder error)
    (c : conn) (p : list Z) : conn * option error :=
  match p with
  | [] => (c, None)
  | byteVal :: rest =>
      let '(c, _) := write4Bits respond c (Z.shiftr byteVal 4) in
      let '(c, err) := write4Bits respond c (Z.land byteVal 0x0f) in
      match err with
      | Some e => (c, Some e)
      | None => write_bytes respond c rest
      end
  end.

(** [Write]: the connection, [n] and [err]. *)
Definition Write {error : Type} (respond : responder error)
    (c : conn) (p : list Z) : outcome (conn * Z * option error) :=
  match p with
  | [] => Done (c, 0, None)
  | p0 :: _ =>
      if p0 =? cmdByte then
        p1 <- index p 1 ;;
        r <- SendCommand respond c [p1] ;;
        Done (fst r, 0, None)
      else
        let n := Z.of_nat (length p) in
        r <- Mcp23008.WriteGPIOPin respond c rsPin modeData ;;
        let '(c, _, err) := r in
        match err with
        | Some e => Done (c, n, Some e)
        | None =>
            let '(c, err) := write_bytes respond c p in
            Done (c, n, err)
        end
  end.

End I2cBackpack.

(** The command ids shared by the two LCD drivers ([commandID], from
    [iota]). *)
Module Command.

Definition autoScrollOff : Z := 0.
Definition autoScrollOn : Z := 1.
Definition blockCursorOff : Z := 2.
Definition blockCursorOn : Z := 3.
Definition clearScreen : Z := 4.
Definition cursorBack : Z := 5.
Definition cursorForward : Z := 6.
Definition displayOff : Z := 7.
Definition displayOn : Z := 8.
Definition goHome : Z := 9.
Definition setCursorPosition : Z := 10.
Definition underlineCursorOff : Z := 11.
Definition underlineCursorOn : Z := 12.

Definition cmdByte : Z := 0xfe.

End Command.

Module Hd44780.
Import Command.

(** The fields of [HD44780] but the writer and the mutex; what a method
    hands to the writer is returned, one frame per call of [w.Write]. *)
Record HD44780 : Type := mkHD44780 {
  rows : Z;
  cols : Z;
  on : bool;
  cursor : bool;
  blink : bool
}.

Definition NewHD44780 (rows cols : Z) : HD44780 :=
  mkHD44780 rows cols true false false.

Definition rowConstants : list (list Z) := [[0; 0; 64]; [0; 0; 64; 20; 84]].

Definition getCommand (commandNumber : Z) : outcome (list Z) :=
  if commandNumber =? autoScrollOff then Done [cmdByte; 0x06]
  else if commandNumber =? autoScrollOn then Done [cmdByte; 0x07]
  else if commandNumber =? clearScreen then Done [cmdByte; 0x01]
  else if commandNumber =? cursorBack then Done [cmdByte; 0x10]
  else if commandNumber =? cursorForward then Done [cmdByte; 0x14]
  else if commandNumber =? displayOff then Done [cmdByte; 0x08]
  else if commandNumber =? displayOn then Done [cmdByte; 0x0c]
  else if commandNumber =? goHome then Done [cmdByte; 0x02]
  else if commandNumber =? setCursorPosition then Done [cmdByte; 0x80]
  else if commandNumber =? underlineCursorOff then Done [cmdByte; 0x4b]
  else if commandNumber =? underlineCursorOn then Done [cmdByte; 0x0e]
  else Fatal.

Definition getRowConstant (row maxcols : Z) : outcome Z :=
  let offset := if negb (maxcols =? 16) then 1 else 0 in
  r <- index rowConstants offset ;;
  index r row.

Definition MinCol : Z := 1.
Definition MinRow : Z := 1.

Definition MoveTo (lcd : HD44780) (row col : Z) : outcome (list (list Z)) :=
  if (row <? MinRow) || (row >? rows lcd) || (col <? MinCol) || (col >? cols lcd)
  then Done []
  else
    cmd <- getCommand setCursorPosition ;;
    cmd1 <- index cmd 1 ;;
    rc <- getRowConstant row (cols lcd) ;;
    Done [store cmd 1 (Z.lor cmd1 (to_byte (rc + to_byte (col - 1))))].

Definition SetDisplay (lcd : HD44780) (on : bool) : HD44780 * list (list Z) :=
  let lcd := mkHD44780 (rows lcd) (cols lcd) on (cursor lcd) (blink lcd) in
  let val := 0x08 in
  let val := if on then Z.lor val 0x04 else val in
  let val := if blink lcd then Z.lor val 0x01 else val in
  let val := if cursor lcd then Z.lor val 0x02 else val in
  (lcd, [[cmdByte; val]]).

End Hd44780.

Module UsbBackpack.
Import Command.

(** The fields of [USBLCDBackpack] that its methods read. *)
Record USBLCDBackpack : Type := mkUSBLCDBackpack {
  rows : Z;
  cols : Z
}.

Definition usbCommand (commandNumber : Z) : outcome (list Z) :=
  if commandNumber =? autoScrollOff then Done [cmdByte; 0x52]
  else if commandNumber =? autoScrollOn then Done [cmdByte; 0x51]
  else if commandNumber =? blockCursorOff then Done [cmdByte; 0x54]
  else if commandNumber =? blockCursorOn then Done [cmdByte; 0x53]
  else if commandNumber =? clearScreen then Done [cmdByte; 0x58]
  else if commandNumber =? cursorBack then Done [cmdByte; 0x4c]
  else if commandNumber =? cursorForward then Done [cmdByte; 0x4d]
  else if commandNumber =? displayOff then Done [cmdByte; 0x46]
  else if commandNumber =? displayOn then Done [cmdByte; 0x42]
  else if commandNumber =? goHome then Done [cmdByte; 0x48]
  else if commandNumber =? setCursorPosition then Done [cmdByte; 0x47]
  else if commandNumber =? underlineCursorOff then Done [cmdByte; 0x4b]
  else if commandNumber =? underlineCursorOn then Done [cmdByte; 0x4a]
  else Fatal.

(** [Write]: one [Tx] with nothing to read; the connection, [n] and
    [err]. *)
Definition Write {error : Type} (respond : responder error)
    (c : conn) (p : list Z) : conn * Z * option error :=
  let '(c, _, err) := Tx respond c p in
  (c, Z.of_nat (length p), err).

Definition sendCommand {error : Type} (respond : responder error)
    (c : conn) (command : Z) (additional : list Z) : outcome conn :=
  cmd <- usbCommand command ;;
  let cmd := cmd ++ additional in
  let bytes := cmd in                    (* [byte(val)] on a byte *)
  Done (fst (fst (Write respond c bytes))).

Definition MoveTo {error : Type} (respond : responder error)
    (lcd : USBLCDBackpack) (c : conn) (row col : Z) : outcome conn :=
  if (row <? 1) || (row >? rows lcd) || (col <? 1) || (col >? cols lcd)
  then Done c
  else sendCommand respond c setCursorPosition [to_byte row; to_byte col].

Definition Home {error : Type} (respond : responder error)
    (lcd : USBLCDBackpack) (c : conn) : outcome conn :=
  MoveTo respond lcd c 1 1.

Definition setGPO {error : Type} (respond : responder error)
    (c : conn) (pin : Z) (on : bool) : outcome conn :=
  if on then sendCommand respond c 0x57 [to_byte pin]
  else sendCommand respond c 0x56 [to_byte pin].

Definition SetDisplay {error : Type} (respond : responder error)
    (c : conn) (on : bool) : outcome conn :=
  if on then sendCommand respond c displayOn []
  else sendCommand respond c displayOff [].

Definition SetBacklight {error : Type} (respond : responder error)
    (c : conn) (intensity : Z) : outcome conn :=
  sendCommand respond c 0x99 [to_byte intensity].

Definition SetContrast {error : Type} (respond : responder error)
    (c : conn) (contrast : Z) : outcome conn :=
  sendCommand respond c 0x50 [to_byte contrast].

End UsbBackpack.

(** The bytes, and a device that answers every read with 0 and never
    fails. *)
Definition all_bytes : list Z := map Z.of_nat (seq 0 256).

Definition quiet : responder unit := fun _ _ => (Byte.x00, None).

(** What [write4Bits] puts on the port for the byte read [cur] and the
    nibble [nib], checked bit by bit. *)
Definition nibble_frame (cur nib : Z) : Z :=
  Z.lor (Z.land cur 0x83) (to_byte (Z.shiftl nib 3)).

Definition nibble_ok (cur nib : Z) : bool :=
  let w := nibble_frame cur nib in
  (0 <=? w) && (w <? 256)
  && (Z.lor w 0x04 =? w + 4)
  && (Z.land (Z.lor w 0x04) 0xfb =? w)
  && Bool.eqb (Z.testbit w 0) (Z.testbit cur 0)
  && Bool.eqb (Z.testbit w 1) (Z.testbit cur 1)
  && Bool.eqb (Z.testbit w 2) false
  && Bool.eqb (Z.testbit w 3) (Z.testbit nib 0)
  && Bool.eqb (Z.testbit w 4) (Z.testbit nib 1)
  && Bool.eqb (Z.testbit w 5) (Z.testbit nib 2)
  && Bool.eqb (Z.testbit w 6) (Z.testbit nib 3)
  && Bool.eqb (Z.testbit w 7) (Z.testbit cur 7).

Definition all_nibbles : list Z := map Z.of_nat (seq 0 16).

(** ** The handlers, statement by statement around the send *)

(** The two handlers are goroutines of their own, and the channel send
    of an iteration is a statement apart from the capacity test before
    it.  An iteration is cut here at its send: [rotary_until_send] and
    [button_until_send] are the iteration from the return of
    [WaitForEdge] up to the send, [rotary_send] and [button_send] are the
    send and what follows it. *)
Inductive begun : Type :=
| Returned                                       (* [terminating] was set *)
| Waiting (sw : RotarySwitch)                    (* back to [WaitForEdge], nothing to send *)
| AtSend (sw : RotarySwitch) (v : RotarySwitchValue).   (* about to do [sw.ch <- v] *)

Definition rotary_until_send (sw : RotarySwitch) (data_read st_read : Level) : begun :=
  if terminating sw then Returned else
  let sw := shift_sample sw data_read st_read in
  if len (ch sw) =? channelSize sw then Waiting sw else
  if (state sw =? 0x06) || (loose sw && (state sw =? 0x07)) then
    let sw := set_position sw (GoInt.add (position sw) 1) in
    let sw :=
      if position sw >=? max_positions sw then
        if wrap_position sw then set_position sw 0
        else set_position sw (max_positions sw)
      else sw in
    AtSend sw DirectionCW
  else if state sw =? 0x03 then
    let sw := set_position sw (GoInt.sub (position sw) 1) in
    let sw :=
      if position sw <? 0 then
        if wrap_position sw then set_position sw (GoInt.sub (max_positions sw) 1)
        else set_position sw 0
      else sw in
    AtSend sw DirectionCCW
  else Waiting sw.

(** [sw.ch <- v] and [sw.state = stateInvalid]; [None] while the send
    cannot go through. *)
Definition rotary_send (sw : RotarySwitch) (v : RotarySwitchValue) : option RotarySwitch :=
  match send (ch sw) v with
  | None => None
  | Some c => Some (set_state (set_ch sw c) stateInvalid)
  end.

Definition button_until_send (sw : RotarySwitch) (button_read : Level) : begun :=
  if terminating sw then Returned else
  let state := button_read in
  if len (ch sw) <? channelSize sw then
    if is_high state && is_low (last_button sw) then AtSend sw ButtonRelease
    else if is_low state && is_high (last_button sw) then AtSend sw ButtonPress
    else Waiting (set_last_button sw state)
  else Waiting sw.

(** [sw.ch <- v] and [sw.last_button = state], with the level the
    iteration read. *)
Definition button_send (sw : RotarySwitch) (v : RotarySwitchValue) (state : Level)
  : option RotarySwitch :=
  match send (ch sw) v with
  | None => None
  | Some c => Some (set_last_button (set_ch sw c) state)
  end.

(** The switch the goroutines share, and where each handler stands:
    [None] in [WaitForEdge], or at its send with the value to send (and,
    for the button, the level read). *)
Record world : Type := mkWorld {
  shared : RotarySwitch;
  rotary_at : option RotarySwitchValue;
  button_at : option (RotarySwitchValue * Level)
}.

Inductive event : Type :=
| StateEdgeSeen (data_read st_read : Level)  (* [rotaryHandler] runs up to its send *)
| RotarySends                                (* [rotaryHandler] tries its send *)
| ButtonEdgeSeen (button_read : Level)       (* [buttonHandler] runs up to its send *)
| ButtonSends                                (* [buttonHandler] tries its send *)
| Consumes                                   (* the consumer takes one event *)
| SetsLooseMode (mode : bool)
| SetsWrap (mode : bool).

(** One event.  An edge is seen only by a handler that waits for one; a
    send that cannot go through leaves everything as it is, the handler
    still at its send. *)
Definition advance (w : world) (e : event) : world :=
  match e with
  | StateEdgeSeen d s =>
      match rotary_at w with
      | Some _ => w
      | None =>
          match rotary_until_send (shared w) d s with
          | Returned => w
          | Waiting sw => mkWorld sw None (button_at w)
          | AtSend sw v => mkWorld sw (Some v) (button_at w)
          end
      end
  | RotarySends =>
      match rotary_at w with
      | None => w
      | Some v =>
          match rotary_send (shared w) v with
          | None => w
          | Some sw => mkWorld sw None (button_at w)
          end
      end
  | ButtonEdgeSeen lvl =>
      match button_at w with
      | Some _ => w
      | None =>
          match button_until_send (shared w) lvl with
          | Returned => w
          | Waiting sw => mkWorld sw (rotary_at w) None
          | AtSend sw v => mkWorld sw (rotary_at w) (Some (v, lvl))
          end
      end
  | ButtonSends =>
      match button_at w with
      | None => w
      | Some (v, lvl) =>
          match button_send (shared w) v lvl with
          | None => w
          | Some sw => mkWorld sw (rotary_at w) None
          end
      end
  | Consumes =>
      match recv (ch (shared w)) with
      | Some (_, c) => mkWorld (set_ch (shared w) c) (rotary_at w) (button_at w)
      | None => w
      end
  | SetsLooseMode mode =>
      mkWorld (SetLooseMode (shared w) mode) (rotary_at w) (button_at w)
  | SetsWrap mode =>
      mkWorld (SetWrap (shared w) mode) (rotary_at w) (button_at w)
  end.

Definition play (w : world) (es : list event) : world :=
  fold_left advance es w.

(** A handler is blocked: it stands at its send and the buffer is
    full. *)
Definition rotary_blocked (w : world) : Prop :=
  exists v, rotary_at w = Some v /\ send (ch (shared w)) v = None.

Definition button_blocked (w : world) : Prop :=
  exists v lvl, button_at w = Some (v, lvl) /\ send (ch (shared w)) v = None.

(** The events of a switch built without a button pin
    ([buttonPin == gpio.INVALID]): [buttonHandler] is never started. *)
Definition no_button (e : event) : bool :=
  match e with
  | ButtonEdgeSeen _ | ButtonSends => false
  | _ => true
  end.

(** A fresh switch, both handlers (if started) in [WaitForEdge]. *)
Definition start (maxPositions : Z) : world :=
  mkWorld (NewRotarySwitch maxPositions) None None.

(** What runs of a switch without a button keep: the channel within its
    sixteen places, and room in it whenever [rotaryHandler] stands at its
    send. *)
Definition sole_producer_inv (w : world) : Prop :=
  chan_ok (shared w) /\ channelSize (shared w) = 16
  /\ button_at w = None
  /\ (forall v, rotary_at w = Some v -> len (ch (shared w)) < channelSize (shared w)).

(** * Proofs *)

(** ** Arithmetic of [int] *)

Lemma wrap_in_range (x : Z) : GoInt.in_range x -> GoInt.wrap x = x.
Proof.
  unfold GoInt.in_range, GoInt.wrap, GoInt.min_int, GoInt.max_int, GoInt.bits.
  intros Hx.
  change (2 ^ (64 - 1)) with 9223372036854775808 in *.
  change (2 ^ 64) with 18446744073709551616.
  rewrite Z.mod_small; lia.
Qed.

Ltac ranges :=
  unfold GoInt.in_range, GoInt.min_int, GoInt.max_int, GoInt.bits in *;
  change (2 ^ (64 - 1)) with 9223372036854775808 in *.

Lemma add_in_range (x y : Z) : GoInt.in_range (x + y) -> GoInt.add x y = x + y.
Proof. apply wrap_in_range. Qed.

Lemma sub_in_range (x y : Z) : GoInt.in_range (x - y) -> GoInt.sub x y = x - y.
Proof. apply wrap_in_range. Qed.

(** ** The shift state *)

(** The shifted state as a number: the old low two bits, moved up by
    two, and the new sample below them. *)
Lemma shift_sample_value (sw : RotarySwitch) (d s : Level) :
  state (shift_sample sw d s)
  = 4 * (state sw mod 4) + level_bit s 2 + level_bit d 1.
Proof.
  unfold shift_sample, level_bit.
  assert (Hland : Z.land (state sw) 0x03 = state sw mod 4).
  { change 0x03 with (Z.ones 2). rewrite Z.land_ones by lia. reflexivity. }
  assert (Hm : 0 <= state sw mod 4 < 4) by (apply Z.mod_pos_bound; lia).
  destruct d, s; cbn [is_high set_state state]; rewrite Hland;
    assert (Hc : state sw mod 4 = 0 \/ state sw mod 4 = 1
                 \/ state sw mod 4 = 2 \/ state sw mod 4 = 3) by lia;
    destruct Hc as [-> | [-> | [-> | ->]]]; reflexivity.
Qed.

Lemma shift_sample_range (sw : RotarySwitch) (d s : Level) :
  0 <= state (shift_sample sw d s) <= 15.
Proof.
  rewrite shift_sample_value.
  assert (Hm : 0 <= state sw mod 4 < 4) by (apply Z.mod_pos_bound; lia).
  unfold level_bit; destruct d, s; cbn [is_high]; lia.
Qed.

(** Only [state] is touched by the shift. *)
Lemma shift_sample_frame (sw : RotarySwitch) (d s : Level) :
  shift_sample sw d s = set_state sw (state (shift_sample sw d s)).
Proof. unfold shift_sample; destruct d, s; reflexivity. Qed.

Lemma shift_from_invalid (sw : RotarySwitch) (d s : Level) :
  state sw = stateInvalid -> 12 <= state (shift_sample sw d s) <= 15.
Proof.
  intros H. rewrite shift_sample_value, H.
  change (stateInvalid mod 4) with 3.
  unfold level_bit; destruct d, s; cbn [is_high]; lia.
Qed.

Ltac fields :=
  unfold set_ch, set_position, set_state, set_last_button, SetLooseMode,
    SetWrap in *;
  cbn [ch channelSize position wrap_position max_positions state last_button
       loose terminating buf cap] in *.

(** ** One iteration of [rotaryHandler], case by case *)

Section RotaryIteration.

Variable sw : RotarySwitch.
Variables d s : Level.
Hypothesis Hrun : terminating sw = false.

Let sh : Z := state (shift_sample sw d s).

  (** Channel full: the sample is shifted in and nothing else is done. *)
Lemma rotary_full :
    len (ch sw) = channelSize sw ->
    rotaryHandler sw d s = Continue (set_state sw sh).
  Proof.
    intros Hfull. unfold rotaryHandler. rewrite Hrun.
    rewrite (shift_sample_frame sw d s). fold sh.
    cbn [set_state ch channelSize].
    rewrite (proj2 (Z.eqb_eq _ _) Hfull). reflexivity.
  Qed.

  (** No pattern completed: the same, whatever the channel holds. *)
Lemma rotary_noise :
    sh <> 0x06 -> sh <> 0x03 -> ~ (loose sw = true /\ sh = 0x07) ->
    rotaryHandler sw d s = Continue (set_state sw sh).
  Proof.
    intros H6 H3 H7. unfold rotaryHandler. rewrite Hrun.
    rewrite (shift_sample_frame sw d s). fold sh. fields.
    destruct (len (ch sw) =? channelSize sw); [reflexivity |].
    rewrite (proj2 (Z.eqb_neq sh 0x06) H6), (proj2 (Z.eqb_neq sh 0x03) H3).
    cbn [orb].
    destruct (loose sw); cbn [andb]; [| reflexivity].
    rewrite (proj2 (Z.eqb_neq sh 0x07)); [reflexivity |].
    intros E; apply H7; split; [reflexivity | exact E].
  Qed.

Hypothesis Hcap : cap (ch sw) = channelSize sw.
Hypothesis Hroom : len (ch sw) < channelSize sw.

Lemma rotary_cw :
    sh = 0x06 \/ (loose sw = true /\ sh = 0x07) ->
    rotaryHandler sw d s = Continue (stepped sw DirectionCW (position_cw sw)).
  Proof.
    intros Hpat. unfold rotaryHandler. rewrite Hrun.
    rewrite (shift_sample_frame sw d s). fold sh.
    fields.
    rewrite (proj2 (Z.eqb_neq _ _)) by lia.
    assert (Hc : (sh =? 0x06) || (loose sw && (sh =? 0x07)) = true).
    { destruct Hpat as [-> | [-> ->]]; reflexivity. }
    rewrite Hc. unfold position_cw, stepped, send.
    fields.
    destruct (GoInt.add (position sw) 1 >=? max_positions sw);
      [destruct (wrap_position sw) eqn:Ew |];
      fields; rewrite (proj2 (Z.ltb_lt _ _)) by lia; fields; rewrite ?Ew;
      reflexivity.
  Qed.

Lemma rotary_ccw :
    sh = 0x03 ->
    rotaryHandler sw d s = Continue (stepped sw DirectionCCW (position_ccw sw)).
  Proof.
    intros Hpat. unfold rotaryHandler. rewrite Hrun.
    rewrite (shift_sample_frame sw d s). fold sh.
    fields.
    rewrite (proj2 (Z.eqb_neq _ _)) by lia.
    rewrite Hpat. cbn [Z.eqb Pos.eqb andb orb].
    rewrite Bool.andb_false_r. cbn [orb].
    unfold position_ccw, stepped, send.
    fields.
    destruct (GoInt.sub (position sw) 1 <? 0);
      [destruct (wrap_position sw) eqn:Ew |];
      fields; rewrite (proj2 (Z.ltb_lt _ _)) by lia; fields; rewrite ?Ew;
      reflexivity.
  Qed.

End RotaryIteration.

(** Whatever an iteration that goes on leaves behind is the switch with
    the sample shifted in, or the switch after one send. *)
Lemma rotary_continue_inv (sw sw' : RotarySwitch) (d s : Level) :
  rotaryHandler sw d s = Continue sw' ->
  sw' = set_state sw (state (shift_sample sw d s))
  \/ exists v p, sw' = stepped sw v p.
Proof.
  unfold rotaryHandler.
  destruct (terminating sw) eqn:Hrun; [discriminate |].
  rewrite (shift_sample_frame sw d s).
  set (sh := state (shift_sample sw d s)). fields.
  destruct (len (ch sw) =? channelSize sw).
  { intros E; injection E as <-. left; reflexivity. }
  destruct ((sh =? 0x06) || (loose sw && (sh =? 0x07))).
  - unfold send.
    destruct (GoInt.add (position sw) 1 >=? max_positions sw);
      [destruct (wrap_position sw) eqn:Ew |]; fields;
      (destruct (len (ch sw) <? cap (ch sw)); [| discriminate]);
      intros E; injection E as <-; right; fields;
      eexists; eexists; unfold stepped; rewrite ?Ew; reflexivity.
  - destruct (sh =? 0x03).
    + unfold send.
      destruct (GoInt.sub (position sw) 1 <? 0);
        [destruct (wrap_position sw) eqn:Ew |]; fields;
        (destruct (len (ch sw) <? cap (ch sw)); [| discriminate]);
        intros E; injection E as <-; right; fields;
        eexists; eexists; unfold stepped; rewrite ?Ew; reflexivity.
    + intros E; injection E as <-. left; reflexivity.
Qed.

Lemma app_one_neq {A : Type} (l : list A) (x : A) : l ++ [x] <> l.
Proof.
  intros E. apply (f_equal (@length A)) in E.
  rewrite length_app in E. cbn in E. lia.
Qed.

(** ** One iteration of [buttonHandler] *)

Lemma button_full (sw : RotarySwitch) (lvl : Level) :
  terminating sw = false ->
  channelSize sw <= len (ch sw) ->
  buttonHandler sw lvl = Continue sw.
Proof.
  intros Hrun Hfull. unfold buttonHandler. rewrite Hrun.
  rewrite (proj2 (Z.ltb_ge _ _) Hfull). reflexivity.
Qed.

(** The events a button edge gives, from the level read and the level
    remembered. *)
Lemma button_room (sw : RotarySwitch) (lvl : Level) :
  terminating sw = false ->
  cap (ch sw) = channelSize sw ->
  len (ch sw) < channelSize sw ->
  buttonHandler sw lvl
  = Continue
      (set_last_button
         (set_ch sw
            (mkChan
               (buf (ch sw) ++
                  match lvl, last_button sw with
                  | High, Low => [ButtonRelease]
                  | Low, High => [ButtonPress]
                  | _, _ => []
                  end)
               (cap (ch sw))))
         lvl).
Proof.
  intros Hrun Hcap Hroom. unfold buttonHandler, send. rewrite Hrun.
  rewrite (proj2 (Z.ltb_lt _ _) Hroom).
  rewrite (proj2 (Z.ltb_lt (len (ch sw)) (cap (ch sw)))) by lia.
  destruct sw as [[b c] cs p w m st lb lo t].
  destruct lvl, lb; cbn; rewrite ?app_nil_r; reflexivity.
Qed.

(** ** The position after a step *)

Section Positions.

Variable sw : RotarySwitch.
Hypothesis Hmax : GoInt.in_range (max_positions sw).

Lemma position_cw_wrap :
    wrap_position sw = true ->
    0 <= position sw < max_positions sw ->
    position_cw sw = (position sw + 1) mod max_positions sw
    /\ 0 <= position_cw sw < max_positions sw.
  Proof.
    intros Hw Hp. unfold position_cw. fields.
    rewrite add_in_range by (ranges; lia).
    rewrite Hw.
    destruct (Z.geb_spec (position sw + 1) (max_positions sw)) as [Hge | Hlt];
      fields.
    - replace (position sw + 1) with (max_positions sw) by lia.
      rewrite Z.mod_same by lia. lia.
    - rewrite Z.mod_small by lia. lia.
  Qed.

Lemma position_ccw_wrap :
    wrap_position sw = true ->
    0 <= position sw < max_positions sw ->
    position_ccw sw = (position sw - 1) mod max_positions sw
    /\ 0 <= position_ccw sw < max_positions sw.
  Proof.
    intros Hw Hp. unfold position_ccw. fields.
    rewrite sub_in_range by (ranges; lia).
    rewrite Hw.
    destruct (Z.ltb_spec (position sw - 1) 0) as [Hlt | Hge]; fields.
    - rewrite sub_in_range by (ranges; lia).
      split; [| lia].
      apply Z.mod_unique_pos with (q := -1); lia.
    - rewrite Z.mod_small by lia. lia.
  Qed.

Hypothesis Hpos : GoInt.in_range (position sw).

Lemma position_cw_nowrap :
    wrap_position sw = false ->
    position sw < GoInt.max_int ->
    position_cw sw = Z.min (position sw + 1) (max_positions sw).
  Proof.
    intros Hw Hp. unfold position_cw. fields. rewrite Hw.
    rewrite add_in_range by (ranges; lia).
    destruct (Z.geb_spec (position sw + 1) (max_positions sw)); fields; lia.
  Qed.

Lemma position_ccw_nowrap :
    wrap_position sw = false ->
    0 <= position sw ->
    position_ccw sw = Z.max 0 (position sw - 1).
  Proof.
    intros Hw Hp. unfold position_ccw. fields.
    rewrite sub_in_range by (ranges; lia).
    rewrite Hw.
    destruct (Z.ltb_spec (position sw - 1) 0); fields; lia.
  Qed.

End Positions.

(** The new position depends on the position, the bound and the wrap
    flag only. *)
Lemma position_cw_set_state (sw : RotarySwitch) (x : Z) :
  position_cw (set_state sw x) = position_cw sw.
Proof.
  unfold position_cw. fields.
  destruct (GoInt.add (position sw) 1 >=? max_positions sw);
    [destruct (wrap_position sw) |]; reflexivity.
Qed.

Lemma position_ccw_SetLooseMode (sw : RotarySwitch) (mode : bool) :
  position_ccw (SetLooseMode sw mode) = position_ccw sw.
Proof.
  unfold position_ccw. fields.
  destruct (GoInt.sub (position sw) 1 <? 0);
    [destruct (wrap_position sw) |]; reflexivity.
Qed.

Lemma button_edge_below_capacity_aux (sw : RotarySwitch) (lvl : Level) :
  terminating sw = false ->
  cap (ch sw) = channelSize sw ->
  len (ch sw) < channelSize sw ->
  exists sw',
    buttonHandler sw lvl = Continue sw'
    /\ buf (ch sw')
       = buf (ch sw) ++
           match lvl, last_button sw with
           | Low, High => [ButtonPress]
           | High, Low => [ButtonRelease]
           | _, _ => []
           end
    /\ last_button sw' = lvl.
Proof.
  intros Hrun Hcap Hroom. eexists. split; [apply button_room; assumption |].
  fields. split; [| reflexivity].
  destruct lvl, (last_button sw); reflexivity.
Qed.

(** ** Iterations never block on a channel made by the constructor *)

Lemma rotary_total (sw : RotarySwitch) (d s : Level) :
  terminating sw = false ->
  chan_ok sw ->
  rotaryHandler sw d s = Continue (set_state sw (state (shift_sample sw d s)))
  \/ (len (ch sw) < channelSize sw
      /\ (rotaryHandler sw d s = Continue (stepped sw DirectionCW (position_cw sw))
          \/ rotaryHandler sw d s
             = Continue (stepped sw DirectionCCW (position_ccw sw)))).
Proof.
  intros Hrun [Hcap Hlen].
  destruct (Z.eq_dec (len (ch sw)) (channelSize sw)) as [Hfull | Hne].
  { left. apply rotary_full; assumption. }
  assert (Hroom : len (ch sw) < channelSize sw) by lia.
  set (sh := state (shift_sample sw d s)).
  destruct (Z.eq_dec sh 0x06) as [H6 | H6].
  { right; split; [exact Hroom | left].
    apply rotary_cw; try assumption. left; exact H6. }
  destruct (Z.eq_dec sh 0x03) as [H3 | H3].
  { right; split; [exact Hroom | right]. apply rotary_ccw; assumption. }
  destruct (loose sw) eqn:Hl.
  - destruct (Z.eq_dec sh 0x07) as [H7 | H7].
    + right; split; [exact Hroom | left].
      apply rotary_cw; try assumption. right; split; assumption.
    + left. apply rotary_noise; try assumption. intros [_ E]; exact (H7 E).
  - left. apply rotary_noise; try assumption.
    intros [E _]; rewrite Hl in E; discriminate.
Qed.

Lemma chan_ok_stepped (sw : RotarySwitch) (v : RotarySwitchValue) (p : Z) :
  chan_ok sw -> len (ch sw) < channelSize sw -> chan_ok (stepped sw v p).
Proof.
  unfold chan_ok, stepped, len. cbn [ch buf cap channelSize].
  rewrite length_app. cbn [length]. lia.
Qed.

Lemma button_total (sw : RotarySwitch) (lvl : Level) :
  terminating sw = false ->
  chan_ok sw ->
  exists sw',
    buttonHandler sw lvl = Continue sw'
    /\ chan_ok sw'
    /\ position sw' = position sw /\ max_positions sw' = max_positions sw
    /\ wrap_position sw' = wrap_position sw /\ state sw' = state sw
    /\ terminating sw' = terminating sw.
Proof.
  intros Hrun [Hcap Hlen].
  destruct (Z.lt_ge_cases (len (ch sw)) (channelSize sw)) as [Hroom | Hfull].
  - rewrite button_room by assumption. eexists; split; [reflexivity |].
    unfold chan_ok, len. fields. rewrite length_app.
    unfold len in Hroom.
    destruct lvl, (last_button sw); cbn [length]; repeat split; lia.
  - rewrite button_full by assumption. eexists; split; [reflexivity |].
    unfold chan_ok. repeat split; assumption.
Qed.

(** ** Invariants of runs *)

(** What every action preserves: the channel stays within its capacity,
    and no goroutine is ever stuck in a send. *)
Lemma step_chan_ok (sw : RotarySwitch) (a : action) :
  chan_ok sw -> exists sw', step sw a = Some sw' /\ chan_ok sw'.
Proof.
  intros Hok. destruct a as [d s | lvl | | mode | mode]; cbn [step].
  - destruct (terminating sw) eqn:Hrun.
    { unfold rotaryHandler. rewrite Hrun. eexists; split; [reflexivity | exact Hok]. }
    destruct (rotary_total sw d s Hrun Hok) as [E | [Hroom [E | E]]];
      rewrite E; cbn [after]; eexists; split; try reflexivity.
    + exact Hok.
    + apply chan_ok_stepped; assumption.
    + apply chan_ok_stepped; assumption.
  - destruct (terminating sw) eqn:Hrun.
    { unfold buttonHandler. rewrite Hrun. eexists; split; [reflexivity | exact Hok]. }
    destruct (button_total sw lvl Hrun Hok) as (sw' & E & Hok' & _).
    rewrite E. eexists; split; [reflexivity | exact Hok'].
  - unfold recv. destruct Hok as [Hcap Hlen].
    destruct (buf (ch sw)) as [| v rest] eqn:Hb.
    + eexists; split; [reflexivity |]. split; assumption.
    + eexists; split; [reflexivity |].
      unfold chan_ok, len in *. fields. rewrite Hb in Hlen.
      cbn [length] in Hlen. lia.
  - eexists; split; [reflexivity | exact Hok].
  - eexists; split; [reflexivity | exact Hok].
Qed.

Lemma run_chan_ok (acts : list action) (sw : RotarySwitch) :
  chan_ok sw -> exists sw', run sw acts = Some sw' /\ chan_ok sw'.
Proof.
  revert sw. induction acts as [| a rest IH]; intros sw Hok; cbn [run].
  - exists sw; split; [reflexivity | exact Hok].
  - destruct (step_chan_ok sw a Hok) as (sw1 & E & Hok1). rewrite E.
    apply IH; exact Hok1.
Qed.

Lemma chan_ok_new (maxPositions : Z) : chan_ok (NewRotarySwitch maxPositions).
Proof. unfold chan_ok; cbn. lia. Qed.

Ltac kept := first [assumption | unfold GoInt.in_range in *; tauto].

Lemma step_wrap_inv (sw : RotarySwitch) (a : action) :
  wrap_inv sw -> keeps_wrap true a = true ->
  exists sw', step sw a = Some sw' /\ wrap_inv sw'.
Proof.
  intros (Hok & Hw & Hmax & Hp) Ha. pose proof Hok as [Hcap Hlen].
  destruct a as [d s | lvl | | mode | mode]; cbn [step].
  - destruct (terminating sw) eqn:Hrun.
    { unfold rotaryHandler. rewrite Hrun.
      eexists; split; [reflexivity | repeat split; kept]. }
    destruct (rotary_total sw d s Hrun Hok) as [E | [Hroom [E | E]]];
      rewrite E; cbn [after]; eexists; (split; [reflexivity |]).
    + repeat split; fields; kept.
    + split; [apply chan_ok_stepped; assumption |].
      unfold stepped; fields. repeat split; try kept;
        apply (position_cw_wrap sw Hmax Hw Hp).
    + split; [apply chan_ok_stepped; assumption |].
      unfold stepped; fields. repeat split; try kept;
        apply (position_ccw_wrap sw Hmax Hw Hp).
  - destruct (terminating sw) eqn:Hrun.
    { unfold buttonHandler. rewrite Hrun.
      eexists; split; [reflexivity | repeat split; kept]. }
    destruct (button_total sw lvl Hrun Hok)
      as (sw' & E & Hok' & Ep & Em & Ew & _).
    rewrite E. eexists; split; [reflexivity |].
    unfold wrap_inv. rewrite Ep, Em, Ew. kept.
  - destruct (step_chan_ok sw Receive Hok) as (sw' & E & Hcap' & Hlen').
    cbn [step] in E. rewrite E. eexists; split; [reflexivity |].
    unfold recv in E. destruct (buf (ch sw)); injection E as <-;
      repeat split; fields; kept.
  - eexists; split; [reflexivity | repeat split; fields; kept].
  - cbn [keeps_wrap] in Ha. apply Bool.eqb_prop in Ha. subst mode.
    eexists; split; [reflexivity | repeat split; fields; kept].
Qed.

Lemma run_wrap_inv (acts : list action) (sw : RotarySwitch) :
  wrap_inv sw -> forallb (keeps_wrap true) acts = true ->
  exists sw', run sw acts = Some sw' /\ wrap_inv sw'.
Proof.
  revert sw. induction acts as [| a rest IH]; intros sw Hinv Hacts; cbn [run].
  - exists sw; split; [reflexivity | exact Hinv].
  - cbn [forallb] in Hacts. apply andb_prop in Hacts as [Ha Hrest].
    destruct (step_wrap_inv sw a Hinv Ha) as (sw1 & E & Hinv1). rewrite E.
    apply IH; assumption.
Qed.

(** Nothing but the constructor sets [max_positions]. *)
Lemma step_keeps_max (sw sw' : RotarySwitch) (a : action) :
  step sw a = Some sw' -> max_positions sw' = max_positions sw.
Proof.
  destruct a as [d s | lvl | | mode | mode]; cbn [step]; intros E.
  - destruct (rotaryHandler sw d s) as [| sw2 | sw2 v] eqn:Er;
      cbn [after] in E; [congruence | | discriminate].
    injection E as ->.
    destruct (rotary_continue_inv _ _ _ _ Er) as [-> | (v & p & ->)];
      reflexivity.
  - destruct (buttonHandler sw lvl) as [| sw2 | sw2 v] eqn:Eb;
      cbn [after] in E; [congruence | | discriminate].
    injection E as ->. revert Eb. unfold buttonHandler, send.
    destruct (terminating sw); [discriminate |].
    destruct (len (ch sw) <? channelSize sw);
      [| intros E; injection E as <-; reflexivity].
    destruct (is_high lvl && is_low (last_button sw));
      [| destruct (is_low lvl && is_high (last_button sw))];
      try (destruct (len (ch sw) <? cap (ch sw)); [| discriminate]);
      intros E; injection E as <-; reflexivity.
  - unfold recv in E. destruct (buf (ch sw)); injection E as <-; reflexivity.
  - injection E as <-. reflexivity.
  - injection E as <-. reflexivity.
Qed.

Lemma run_keeps_max (acts : list action) (sw sw' : RotarySwitch) :
  run sw acts = Some sw' -> max_positions sw' = max_positions sw.
Proof.
  revert sw. induction acts as [| a rest IH]; intros sw E; cbn [run] in E.
  - injection E as <-. reflexivity.
  - destruct (step sw a) as [sw1 |] eqn:E1; [| discriminate].
    rewrite (IH sw1 E). apply (step_keeps_max sw sw1 a E1).
Qed.

(** With wrapping off the position stays within [0, max_positions],
    both ends included. *)
Lemma step_nowrap_inv (sw : RotarySwitch) (a : action) :
  nowrap_inv sw -> keeps_wrap false a = true ->
  exists sw', step sw a = Some sw' /\ nowrap_inv sw'.
Proof.
  intros (Hok & Hw & Hmax & Hp) Ha. pose proof Hok as [Hcap Hlen].
  assert (Hpr : GoInt.in_range (position sw)) by (ranges; lia).
  destruct a as [d s | lvl | | mode | mode]; cbn [step].
  - destruct (terminating sw) eqn:Hrun.
    { unfold rotaryHandler. rewrite Hrun.
      eexists; split; [reflexivity | repeat split; kept]. }
    destruct (rotary_total sw d s Hrun Hok) as [E | [Hroom [E | E]]];
      rewrite E; cbn [after]; eexists; (split; [reflexivity |]).
    + repeat split; fields; kept.
    + split; [apply chan_ok_stepped; assumption |].
      unfold stepped; fields.
      rewrite (position_cw_nowrap sw Hpr Hw) by lia.
      repeat split; try kept; lia.
    + split; [apply chan_ok_stepped; assumption |].
      unfold stepped; fields.
      rewrite (position_ccw_nowrap sw Hpr Hw) by lia.
      repeat split; try kept; lia.
  - destruct (terminating sw) eqn:Hrun.
    { unfold buttonHandler. rewrite Hrun.
      eexists; split; [reflexivity | repeat split; kept]. }
    destruct (button_total sw lvl Hrun Hok)
      as (sw' & E & Hok' & Ep & Em & Ew & _).
    rewrite E. eexists; split; [reflexivity |].
    unfold nowrap_inv. rewrite Ep, Em, Ew. kept.
  - destruct (step_chan_ok sw Receive Hok) as (sw' & E & Hcap' & Hlen').
    cbn [step] in E. rewrite E. eexists; split; [reflexivity |].
    unfold recv in E. destruct (buf (ch sw)); injection E as <-;
      repeat split; fields; kept.
  - eexists; split; [reflexivity | repeat split; fields; kept].
  - cbn [keeps_wrap] in Ha. apply Bool.eqb_prop in Ha. subst mode.
    eexists; split; [reflexivity | repeat split; fields; kept].
Qed.

Lemma run_nowrap_inv (acts : list action) (sw : RotarySwitch) :
  nowrap_inv sw -> forallb (keeps_wrap false) acts = true ->
  exists sw', run sw acts = Some sw' /\ nowrap_inv sw'.
Proof.
  revert sw. induction acts as [| a rest IH]; intros sw Hinv Hacts; cbn [run].
  - exists sw; split; [reflexivity | exact Hinv].
  - cbn [forallb] in Hacts. apply andb_prop in Hacts as [Ha Hrest].
    destruct (step_nowrap_inv sw a Hinv Ha) as (sw1 & E & Hinv1). rewrite E.
    apply IH; assumption.
Qed.

(** ** Bits of the shift state *)

Lemma testbit_above_nibble (v n : Z) :
  0 <= v < 16 -> 4 <= n -> Z.testbit v n = false.
Proof.
  intros Hv Hn. apply Z.testbit_false; [lia |].
  assert (Hpow : 2 ^ 4 <= 2 ^ n) by (apply Z.pow_le_mono_r; lia).
  change (2 ^ 4) with 16 in Hpow.
  rewrite Z.div_small by lia. reflexivity.
Qed.

Lemma mod4_bits (x : Z) :
  Z.testbit (x mod 4) 0 = Z.testbit x 0 /\ Z.testbit (x mod 4) 1 = Z.testbit x 1.
Proof.
  change 4 with (2 ^ 2). rewrite <- Z.land_ones by lia.
  rewrite !Z.land_spec. change (Z.ones 2) with 3. cbn.
  rewrite !Bool.andb_true_r. split; reflexivity.
Qed.

Lemma shift_sample_bits (sw : RotarySwitch) (d s : Level) :
  let sh := state (shift_sample sw d s) in
  Z.testbit sh 0 = is_high d
  /\ Z.testbit sh 1 = is_high s
  /\ Z.testbit sh 2 = Z.testbit (state sw) 0
  /\ Z.testbit sh 3 = Z.testbit (state sw) 1
  /\ forall n, 4 <= n -> Z.testbit sh n = false.
Proof.
  intros sh.
  assert (Hr : 0 <= sh <= 15) by apply shift_sample_range.
  destruct (mod4_bits (state sw)) as [<- <-].
  subst sh. rewrite shift_sample_value in *.
  assert (Hm : 0 <= state sw mod 4 < 4) by (apply Z.mod_pos_bound; lia).
  assert (Hc : state sw mod 4 = 0 \/ state sw mod 4 = 1
               \/ state sw mod 4 = 2 \/ state sw mod 4 = 3) by lia.
  repeat split.
  5: { intros n Hn. apply testbit_above_nibble; lia. }
  all: destruct Hc as [-> | [-> | [-> | ->]]]; destruct d, s; reflexivity.
Qed.

(** * The decoder's properties *)

(** C1 (as amended).  For a state-pin edge handled while the channel
    holds fewer than [channelSize] events: when the shifted state is
    0b0110 exactly one [DirectionCW] is enqueued, and the position becomes
    [(position + 1) mod max_positions] with wrapping on and the position
    in [0, max_positions), or [position + 1] with wrapping off as long as
    that stays below [max_positions]; when the shifted state is 0b0011
    exactly one [DirectionCCW] is enqueued, and the position becomes
    [(position - 1) mod max_positions] with wrapping on and the position
    in [0, max_positions), or, with wrapping off and a position that is
    not negative, [position - 1] held at 0 from below. *)
Theorem rotary_step_below_capacity (sw : RotarySwitch) (d s : Level) :
  terminating sw = false ->
  cap (ch sw) = channelSize sw ->
  len (ch sw) < channelSize sw ->
  GoInt.in_range (position sw) ->
  GoInt.in_range (max_positions sw) ->
  (state (shift_sample sw d s) = 0x06 ->
   exists sw',
     rotaryHandler sw d s = Continue sw'
     /\ buf (ch sw') = buf (ch sw) ++ [DirectionCW]
     /\ (wrap_position sw = true ->
         0 <= position sw < max_positions sw ->
         position sw' = (position sw + 1) mod max_positions sw)
     /\ (wrap_position sw = false ->
         position sw + 1 < max_positions sw ->
         position sw' = position sw + 1))
  /\ (state (shift_sample sw d s) = 0x03 ->
      exists sw',
        rotaryHandler sw d s = Continue sw'
        /\ buf (ch sw') = buf (ch sw) ++ [DirectionCCW]
        /\ (wrap_position sw = true ->
            0 <= position sw < max_positions sw ->
            position sw' = (position sw - 1) mod max_positions sw)
        /\ (wrap_position sw = false ->
            0 <= position sw ->
            position sw' = Z.max 0 (position sw - 1))).
Proof.
  intros Hrun Hcap Hroom Hpos Hmax. split; intros Hsh.
  - exists (stepped sw DirectionCW (position_cw sw)).
    split; [apply rotary_cw; auto |].
    split; [reflexivity |]. cbn [stepped position]. split.
    + intros Hw Hp. apply (position_cw_wrap sw Hmax Hw Hp).
    + intros Hw Hp. rewrite (position_cw_nowrap sw Hpos Hw) by (ranges; lia).
      lia.
  - exists (stepped sw DirectionCCW (position_ccw sw)).
    split; [apply rotary_ccw; auto |].
    split; [reflexivity |]. cbn [stepped position]. split.
    + intros Hw Hp. apply (position_ccw_wrap sw Hmax Hw Hp).
    + intros Hw Hp. apply (position_ccw_nowrap sw Hpos Hw Hp).
Qed.

(** The theorem at a switch built for 24 positions, after the falling
    edge of a turn: clockwise first, counter-clockwise second (the
    position wraps from 0 to 23). *)
Lemma rotary_step_below_capacity_witness :
  (exists sw',
      rotaryHandler (set_state (NewRotarySwitch 24) 0xd) Low High = Continue sw'
      /\ buf (ch sw') = [DirectionCW] /\ position sw' = 1)
  /\ (exists sw',
         rotaryHandler (set_state (NewRotarySwitch 24) 0xc) High High
         = Continue sw'
         /\ buf (ch sw') = [DirectionCCW] /\ position sw' = 23).
Proof.
  split.
  - destruct (rotary_step_below_capacity (set_state (NewRotarySwitch 24) 0xd)
                Low High) as [Hcw _];
      [reflexivity | reflexivity | reflexivity
       | vm_compute; split; discriminate | vm_compute; split; discriminate |].
    destruct (Hcw eq_refl) as (sw' & E & Hb & Hp & _).
    exists sw'. split; [exact E |]. split; [exact Hb |].
    apply Hp; [reflexivity | vm_compute; split; [discriminate | reflexivity]].
  - destruct (rotary_step_below_capacity (set_state (NewRotarySwitch 24) 0xc)
                High High) as [_ Hccw];
      [reflexivity | reflexivity | reflexivity
       | vm_compute; split; discriminate | vm_compute; split; discriminate |].
    destruct (Hccw eq_refl) as (sw' & E & Hb & Hp & _).
    exists sw'. split; [exact E |]. split; [exact Hb |].
    apply Hp; [reflexivity | vm_compute; split; [discriminate | reflexivity]].
Defined.

(** C1 as it is written fails where wrapping is off and the position is
    0: the switch [nowrap_at_zero] is reached from the constructor, its
    channel is empty, the next edge completes 0b0011, and the position
    after it is 0, not -1. *)
Lemma ccw_at_zero_without_wrap_stays :
  run (NewRotarySwitch 4) [CallSetWrap false; StateEdge Low Low]
  = Some nowrap_at_zero
  /\ terminating nowrap_at_zero = false
  /\ len (ch nowrap_at_zero) < channelSize nowrap_at_zero
  /\ wrap_position nowrap_at_zero = false
  /\ state (shift_sample nowrap_at_zero High High) = 0x03
  /\ rotaryHandler nowrap_at_zero High High
     = Continue (stepped nowrap_at_zero DirectionCCW 0)
  /\ position nowrap_at_zero = 0
  /\ ~ (exists sw',
           rotaryHandler nowrap_at_zero High High = Continue sw'
           /\ buf (ch sw') = buf (ch nowrap_at_zero) ++ [DirectionCCW]
           /\ position sw' = position nowrap_at_zero - 1).
Proof.
  repeat split.
  intros (sw' & E & _ & Hp).
  vm_compute in E. injection E as <-. vm_compute in Hp. discriminate Hp.
Qed.

(** C2.  With wrapping on, [max_positions] positive and the position
    starting at 0, every run of state-pin edges, button edges, receives
    and setter calls that leave wrapping on goes through without a
    blocked send, and ends with [0 <= position < max_positions]. *)
Theorem position_in_range_with_wrap (sw : RotarySwitch) (acts : list action) :
  chan_ok sw ->
  wrap_position sw = true ->
  0 < max_positions sw ->
  GoInt.in_range (max_positions sw) ->
  position sw = 0 ->
  forallb (keeps_wrap true) acts = true ->
  exists sw',
    run sw acts = Some sw'
    /\ max_positions sw' = max_positions sw
    /\ 0 <= position sw' < max_positions sw'.
Proof.
  intros Hok Hw Hpos Hmax Hp Hacts.
  assert (Hinv : wrap_inv sw).
  { split; [exact Hok |]. split; [exact Hw |]. split; [exact Hmax | lia]. }
  destruct (run_wrap_inv acts sw Hinv Hacts) as (sw' & E & Hinv').
  exists sw'. split; [exact E |].
  split; [apply (run_keeps_max acts sw sw' E) | apply Hinv'].
Qed.

(** The theorem on a switch built for 3 positions: four clockwise
    turns, a receive, two counter-clockwise turns. *)
Lemma position_in_range_with_wrap_witness :
  exists sw',
    run (NewRotarySwitch 3)
      (cw_turn Low ++ cw_turn Low ++ cw_turn High ++ cw_turn Low
         ++ [Receive] ++ ccw_turn ++ ccw_turn)
    = Some sw'
    /\ max_positions sw' = 3
    /\ 0 <= position sw' < max_positions sw'.
Proof.
  apply (position_in_range_with_wrap (NewRotarySwitch 3)).
  - apply chan_ok_new.
  - reflexivity.
  - reflexivity.
  - vm_compute; split; discriminate.
  - reflexivity.
  - reflexivity.
Defined.

(** C3, on the code: with wrapping off, four clockwise turns on a switch
    built for 4 positions leave the position at 4, above
    [max_positions - 1]. *)
Theorem nowrap_position_reaches_max_positions :
  exists sw',
    run (NewRotarySwitch 4)
      (CallSetWrap false
         :: cw_turn Low ++ cw_turn Low ++ cw_turn Low ++ cw_turn Low)
    = Some sw'
    /\ wrap_position sw' = false
    /\ max_positions sw' = 4
    /\ Position sw' = 4
    /\ ~ (Position sw' <= max_positions sw' - 1).
Proof.
  eexists. split; [vm_compute; reflexivity |].
  repeat split. vm_compute. intros H; apply H; reflexivity.
Qed.

(** What the code keeps with wrapping off: the position stays within
    [0, max_positions], both ends included. *)
Theorem position_bounds_without_wrap (sw : RotarySwitch) (acts : list action) :
  chan_ok sw ->
  wrap_position sw = false ->
  0 <= max_positions sw < GoInt.max_int ->
  position sw = 0 ->
  forallb (keeps_wrap false) acts = true ->
  exists sw',
    run sw acts = Some sw' /\ 0 <= position sw' <= max_positions sw'.
Proof.
  intros Hok Hw Hmax Hp Hacts.
  assert (Hinv : nowrap_inv sw).
  { split; [exact Hok |]. split; [exact Hw |]. split; lia. }
  destruct (run_nowrap_inv acts sw Hinv Hacts) as (sw' & E & Hinv').
  exists sw'. split; [exact E | apply Hinv'].
Qed.

(** C4 (as amended).  When the channel already holds [channelSize]
    events, an iteration of [rotaryHandler] only shifts the sample in:
    no event is enqueued, the position is not changed and the shift state
    is not reset; an iteration of [buttonHandler] changes nothing, the
    remembered button level included.  Neither blocks, and the channel
    still holds [channelSize] events afterwards. *)
Theorem full_channel_drops_transition (sw : RotarySwitch) (d s lvl : Level) :
  terminating sw = false ->
  len (ch sw) = channelSize sw ->
  (exists sw',
      rotaryHandler sw d s = Continue sw'
      /\ ch sw' = ch sw
      /\ position sw' = position sw
      /\ state sw' = state (shift_sample sw d s)
      /\ len (ch sw') = channelSize sw')
  /\ buttonHandler sw lvl = Continue sw.
Proof.
  intros Hrun Hfull. split.
  - exists (set_state sw (state (shift_sample sw d s))).
    split; [apply rotary_full; assumption |].
    repeat split; fields; auto.
  - apply button_full; [assumption | lia].
Qed.

(** The theorem at [full_switch], for the rising edge of a clockwise
    turn and for a button edge. *)
Lemma full_channel_drops_transition_witness :
  (exists sw',
      rotaryHandler full_switch Low High = Continue sw'
      /\ ch sw' = ch full_switch
      /\ position sw' = position full_switch
      /\ state sw' = state (shift_sample full_switch Low High)
      /\ len (ch sw') = channelSize sw')
  /\ buttonHandler full_switch High = Continue full_switch.
Proof.
  apply (full_channel_drops_transition full_switch Low High High);
    reflexivity.
Defined.

(** C4 as it is written fails at [full_switch], which sixteen clockwise
    turns and one more falling edge reach from the constructor: its
    channel holds [channelSize] events; the next state-pin edge completes
    0b0110 and the position is not incremented; a button edge reads high
    against a remembered low and the remembered level is not updated. *)
Lemma full_channel_state_not_updated :
  run (NewRotarySwitch 24)
    (concat (repeat (cw_turn Low) 16) ++ [StateEdge High Low])
  = Some full_switch
  /\ len (ch full_switch) = channelSize full_switch
  /\ state (shift_sample full_switch Low High) = 0x06
  /\ rotaryHandler full_switch Low High = Continue (set_state full_switch 0x06)
  /\ position full_switch = 16
  /\ ~ (exists sw',
           rotaryHandler full_switch Low High = Continue sw'
           /\ position sw' = position full_switch + 1)
  /\ buttonHandler full_switch High = Continue full_switch
  /\ last_button full_switch = Low
  /\ ~ (exists sw',
           buttonHandler full_switch High = Continue sw'
           /\ last_button sw' = High).
Proof.
  split; [vm_compute; reflexivity |].
  split; [reflexivity |]. split; [reflexivity |]. split; [reflexivity |].
  split; [reflexivity |]. split; [| split; [reflexivity | split; [reflexivity |]]].
  - intros (sw' & E & Hp). vm_compute in E. injection E as <-.
    vm_compute in Hp. discriminate Hp.
  - intros (sw' & E & Hl). vm_compute in E. injection E as <-.
    vm_compute in Hl. discriminate Hl.
Qed.

(** C5.  For a state-pin edge that makes the shift state 0b0111 while
    the channel is below capacity: in loose mode the iteration does what
    the canonical clockwise edge (0b0110) does on the same switch, one
    [DirectionCW] enqueued and the same new position; out of loose mode
    nothing is enqueued, the position is kept and the shift state stays
    0b0111.  An edge that makes the shift state 0b0011 gives the same
    [DirectionCCW] and the same position whatever the loose flag. *)
Theorem loose_mode_near_miss (sw : RotarySwitch) (d s : Level) :
  terminating sw = false ->
  cap (ch sw) = channelSize sw ->
  len (ch sw) < channelSize sw ->
  (state (shift_sample sw d s) = 0x07 ->
   (loose sw = true ->
    rotaryHandler sw d s = Continue (stepped sw DirectionCW (position_cw sw))
    /\ state (shift_sample (set_state sw 0x01) Low High) = 0x06
    /\ rotaryHandler sw d s = rotaryHandler (set_state sw 0x01) Low High)
   /\ (loose sw = false ->
       rotaryHandler sw d s = Continue (set_state sw 0x07)))
  /\ (state (shift_sample sw d s) = 0x03 ->
      forall mode : bool,
        rotaryHandler (SetLooseMode sw mode) d s
        = Continue
            (SetLooseMode (stepped sw DirectionCCW (position_ccw sw)) mode)).
Proof.
  intros Hrun Hcap Hroom. split.
  - intros H7. split.
    + intros Hl. split; [apply rotary_cw; auto |].
      assert (H6 : state (shift_sample (set_state sw 0x01) Low High) = 0x06)
        by reflexivity.
      split; [exact H6 |].
      rewrite (rotary_cw sw d s) by auto.
      rewrite (rotary_cw (set_state sw 0x01) Low High) by auto.
      rewrite position_cw_set_state. reflexivity.
    + intros Hl. rewrite <- H7. apply rotary_noise; [assumption | lia | lia |].
      intros [E _]. rewrite Hl in E. discriminate.
  - intros H3 mode.
    assert (H3' : state (shift_sample (SetLooseMode sw mode) d s) = 0x03).
    { rewrite shift_sample_value in *. exact H3. }
    rewrite (rotary_ccw (SetLooseMode sw mode) d s) by auto.
    rewrite position_ccw_SetLooseMode. reflexivity.
Qed.

(** The theorem after the falling edge of a clockwise turn, with the
    data pin read late (high) at the rising edge. *)
Lemma loose_mode_near_miss_witness :
  rotaryHandler (set_state (NewRotarySwitch 24) 0xd) High High
  = Continue (stepped (set_state (NewRotarySwitch 24) 0xd) DirectionCW 1)
  /\ rotaryHandler
       (SetLooseMode (set_state (NewRotarySwitch 24) 0xd) false) High High
     = Continue
         (set_state
            (SetLooseMode (set_state (NewRotarySwitch 24) 0xd) false) 0x07)
  /\ rotaryHandler
       (SetLooseMode (set_state (NewRotarySwitch 24) 0xc) false) High High
     = Continue
         (SetLooseMode
            (stepped (set_state (NewRotarySwitch 24) 0xc) DirectionCCW 23)
            false).
Proof.
  split; [| split].
  - destruct (loose_mode_near_miss (set_state (NewRotarySwitch 24) 0xd)
                High High) as [H7 _]; [reflexivity | reflexivity | reflexivity |].
    destruct (H7 eq_refl) as [Hl _]. destruct (Hl eq_refl) as [E _]. exact E.
  - destruct (loose_mode_near_miss
                (SetLooseMode (set_state (NewRotarySwitch 24) 0xd) false)
                High High) as [H7 _]; [reflexivity | reflexivity | reflexivity |].
    destruct (H7 eq_refl) as [_ Hl]. exact (Hl eq_refl).
  - destruct (loose_mode_near_miss (set_state (NewRotarySwitch 24) 0xc)
                High High) as [_ H3]; [reflexivity | reflexivity | reflexivity |].
    exact (H3 eq_refl false).
Defined.

(** C6.  For a button-pin edge handled while the channel holds fewer
    than [channelSize] events: a low level read against a remembered high
    enqueues exactly one [ButtonPress], a high level read against a
    remembered low exactly one [ButtonRelease], an equal level nothing;
    the remembered level becomes the level read and nothing else
    changes. *)
Theorem button_edge_below_capacity (sw : RotarySwitch) (lvl : Level) :
  terminating sw = false ->
  cap (ch sw) = channelSize sw ->
  len (ch sw) < channelSize sw ->
  exists sw',
    buttonHandler sw lvl = Continue sw'
    /\ buf (ch sw')
       = buf (ch sw) ++
           match lvl, last_button sw with
           | Low, High => [ButtonPress]
           | High, Low => [ButtonRelease]
           | _, _ => []
           end
    /\ last_button sw' = lvl
    /\ sw' = set_last_button (set_ch sw (ch sw')) lvl.
Proof.
  intros Hrun Hcap Hroom. eexists. split; [apply button_room; assumption |].
  fields. split; [| split; reflexivity].
  destruct lvl, (last_button sw); reflexivity.
Qed.

(** The theorem on a released button being pressed. *)
Lemma button_edge_below_capacity_witness :
  exists sw',
    buttonHandler (set_last_button (NewRotarySwitch 24) High) Low = Continue sw'
    /\ buf (ch sw') = [ButtonPress]
    /\ last_button sw' = Low
    /\ sw' = set_last_button
               (set_ch (set_last_button (NewRotarySwitch 24) High) (ch sw')) Low.
Proof.
  apply (button_edge_below_capacity
           (set_last_button (NewRotarySwitch 24) High) Low); reflexivity.
Defined.

(** The four ways an iteration of a running [rotaryHandler] goes: the
    channel is full; a clockwise pattern with room; the counter-clockwise
    pattern with room; no pattern with room. *)
Lemma rotary_outcome (sw : RotarySwitch) (d s : Level) :
  terminating sw = false ->
  chan_ok sw ->
  let sh := state (shift_sample sw d s) in
  (len (ch sw) = channelSize sw
   /\ rotaryHandler sw d s = Continue (set_state sw sh))
  \/ (len (ch sw) < channelSize sw
      /\ (sh = 0x06 \/ (loose sw = true /\ sh = 0x07))
      /\ rotaryHandler sw d s
         = Continue (stepped sw DirectionCW (position_cw sw)))
  \/ (len (ch sw) < channelSize sw
      /\ sh = 0x03
      /\ rotaryHandler sw d s
         = Continue (stepped sw DirectionCCW (position_ccw sw)))
  \/ (len (ch sw) < channelSize sw
      /\ (sh <> 0x06 /\ sh <> 0x03 /\ ~ (loose sw = true /\ sh = 0x07))
      /\ rotaryHandler sw d s = Continue (set_state sw sh)).
Proof.
  intros Hrun [Hcap Hlen] sh.
  destruct (Z.eq_dec (len (ch sw)) (channelSize sw)) as [Hfull | Hne].
  { left. split; [exact Hfull | apply rotary_full; assumption]. }
  assert (Hroom : len (ch sw) < channelSize sw) by lia.
  right.
  destruct (Z.eq_dec sh 0x06) as [H6 | H6].
  { left. split; [exact Hroom |]. split; [left; exact H6 |].
    apply rotary_cw; try assumption. left; exact H6. }
  destruct (Z.eq_dec sh 0x03) as [H3 | H3].
  { right; left. split; [exact Hroom |]. split; [exact H3 |].
    apply rotary_ccw; assumption. }
  destruct (loose sw) eqn:Hl.
  - destruct (Z.eq_dec sh 0x07) as [H7 | H7].
    + left. split; [exact Hroom |]. split; [right; split; [reflexivity | exact H7] |].
      apply rotary_cw; try assumption. right; split; assumption.
    + right; right. split; [exact Hroom |].
      assert (Hn : ~ (true = true /\ sh = 0x07)) by (intros [_ E]; exact (H7 E)).
      split; [repeat split; assumption |].
      apply rotary_noise; try assumption. rewrite Hl. exact Hn.
  - right; right. split; [exact Hroom |].
    assert (Hn : ~ (false = true /\ sh = 0x07)) by (intros [E _]; discriminate E).
    split; [repeat split; assumption |].
    apply rotary_noise; try assumption. rewrite Hl. exact Hn.
Qed.

(** C7.  An edge on the state pin shifts exactly one two-bit sample into
    the shift state: the value is [(state & 0b0011) << 2] with bit 0 set
    iff the data pin reads high and bit 1 set iff the state pin reads
    high.  When that value is 0b0110 (or 0b0111 in loose mode) and the
    channel has room, the iteration enqueues one [DirectionCW] and resets
    the shift state to the sentinel; when it is 0b0011 and the channel
    has room, it enqueues one [DirectionCCW] and resets the shift state
    to the sentinel; for any other value, and on a full channel, it
    enqueues nothing, leaves the value in the shift state and changes
    nothing else.  So the shift state is the sentinel after every
    iteration that enqueued an event, and the shifted value after every
    other. *)
Theorem shift_state_advance (sw : RotarySwitch) (d s : Level) :
  terminating sw = false ->
  chan_ok sw ->
  let sh := state (shift_sample sw d s) in
  sh = Z.lor (Z.lor (Z.shiftl (Z.land (state sw) 0x03) 2) (level_bit d 0x01))
         (level_bit s 0x02)
  /\ (Z.testbit sh 0 = is_high d
      /\ Z.testbit sh 1 = is_high s
      /\ Z.testbit sh 2 = Z.testbit (state sw) 0
      /\ Z.testbit sh 3 = Z.testbit (state sw) 1
      /\ forall n, 4 <= n -> Z.testbit sh n = false)
  /\ exists sw',
       rotaryHandler sw d s = Continue sw'
       /\ (len (ch sw) < channelSize sw ->
           sh = 0x06 \/ (loose sw = true /\ sh = 0x07) ->
           buf (ch sw') = buf (ch sw) ++ [DirectionCW]
           /\ state sw' = stateInvalid)
       /\ (len (ch sw) < channelSize sw ->
           sh = 0x03 ->
           buf (ch sw') = buf (ch sw) ++ [DirectionCCW]
           /\ state sw' = stateInvalid)
       /\ (sh <> 0x06 -> sh <> 0x03 -> ~ (loose sw = true /\ sh = 0x07) ->
           sw' = set_state sw sh)
       /\ (len (ch sw) = channelSize sw -> sw' = set_state sw sh)
       /\ ((buf (ch sw') = buf (ch sw) /\ state sw' = sh)
           \/ ((exists v, buf (ch sw') = buf (ch sw) ++ [v])
               /\ state sw' = stateInvalid))
       /\ (buf (ch sw') <> buf (ch sw) -> state sw' = stateInvalid)
       /\ (buf (ch sw') = buf (ch sw) -> state sw' = sh).
Proof.
  intros Hrun Hok sh. split; [| split].
  - subst sh. unfold shift_sample, level_bit.
    destruct d, s; fields; cbn [is_high]; rewrite ?Z.lor_0_r; reflexivity.
  - apply shift_sample_bits.
  - destruct (rotary_outcome sw d s Hrun Hok)
      as [(Hfull & E) | [(Hroom & Hpat & E) | [(Hroom & Hpat & E)
        | (Hroom & (N6 & N3 & N7) & E)]]];
      fold sh in E; try fold sh in Hpat; rewrite E;
      eexists; (split; [reflexivity |]).
    + (* full channel *)
      split; [intros Hlt; lia |]. split; [intros Hlt; lia |].
      split; [reflexivity |]. split; [reflexivity |].
      split; [left; split; reflexivity |].
      split; [intros Hne; exfalso; apply Hne; reflexivity | reflexivity].
    + (* clockwise *)
      split; [intros _ _; split; reflexivity |].
      split; [intros _ E3; exfalso; destruct Hpat as [H6 | [_ H7]]; lia |].
      split; [intros H6 _ H7; exfalso; destruct Hpat as [P | P];
              [exact (H6 P) | exact (H7 P)] |].
      split; [intros Hfull; lia |].
      split; [right; split; [exists DirectionCW |]; reflexivity |].
      split; [reflexivity |].
      intros Hb. exfalso. unfold stepped in Hb. fields.
      exact (app_one_neq _ _ Hb).
    + (* counter-clockwise *)
      split; [intros _ P; exfalso; destruct P as [H6 | [_ H7]]; lia |].
      split; [intros _ _; split; reflexivity |].
      split; [intros _ H3 _; exfalso; exact (H3 Hpat) |].
      split; [intros Hfull; lia |].
      split; [right; split; [exists DirectionCCW |]; reflexivity |].
      split; [reflexivity |].
      intros Hb. exfalso. unfold stepped in Hb. fields.
      exact (app_one_neq _ _ Hb).
    + (* no pattern *)
      split; [intros _ P; exfalso; destruct P as [H6 | H7];
              [exact (N6 H6) | exact (N7 H7)] |].
      split; [intros _ H3; exfalso; exact (N3 H3) |].
      split; [reflexivity |]. split; [reflexivity |].
      split; [left; split; reflexivity |].
      split; [intros Hne; exfalso; apply Hne; reflexivity | reflexivity].
Qed.

(** The theorem at three edges: the rising edge of a clockwise turn,
    which enqueues [DirectionCW] and resets the shift state from 0b0110
    to the sentinel; the rising edge of a counter-clockwise turn, which
    enqueues [DirectionCCW] and resets it from 0b0011; and the first edge
    after construction, where the sentinel becomes 0b1101 and nothing is
    sent. *)
Lemma shift_state_advance_witness :
  (state (shift_sample (set_state (NewRotarySwitch 24) 0xd) Low High) = 0x06
   /\ exists sw',
        rotaryHandler (set_state (NewRotarySwitch 24) 0xd) Low High
        = Continue sw'
        /\ buf (ch sw') = [DirectionCW]
        /\ state sw' = stateInvalid)
  /\ (state (shift_sample (set_state (NewRotarySwitch 24) 0xc) High High) = 0x03
      /\ exists sw',
           rotaryHandler (set_state (NewRotarySwitch 24) 0xc) High High
           = Continue sw'
           /\ buf (ch sw') = [DirectionCCW]
           /\ state sw' = stateInvalid)
  /\ (state (shift_sample (NewRotarySwitch 24) High Low) = 0xd
      /\ exists sw',
           rotaryHandler (NewRotarySwitch 24) High Low = Continue sw'
           /\ sw' = set_state (NewRotarySwitch 24) 0xd).
Proof.
  split; [| split].
  - destruct (shift_state_advance (set_state (NewRotarySwitch 24) 0xd) Low High)
      as (_ & _ & sw' & E & Hcw & _);
      [reflexivity | apply (chan_ok_new 24) |].
    split; [reflexivity |]. exists sw'. split; [exact E |].
    apply Hcw; [reflexivity | left; reflexivity].
  - destruct (shift_state_advance (set_state (NewRotarySwitch 24) 0xc) High High)
      as (_ & _ & sw' & E & _ & Hccw & _);
      [reflexivity | apply (chan_ok_new 24) |].
    split; [reflexivity |]. exists sw'. split; [exact E |].
    apply Hccw; reflexivity.
  - destruct (shift_state_advance (NewRotarySwitch 24) High Low)
      as (_ & _ & sw' & E & _ & _ & Hn & _);
      [reflexivity | apply chan_ok_new |].
    split; [reflexivity |]. exists sw'. split; [exact E |].
    apply Hn; [discriminate | discriminate |].
    intros [_ H7]. discriminate H7.
Defined.

(** C8.  A switch built for 24 positions (wrapping on, loose mode on,
    sixteen events of room, position 0) that sees three clockwise turns
    and then one counter-clockwise turn holds exactly
    [DirectionCW; DirectionCW; DirectionCW; DirectionCCW] and stands at
    position 2, whatever level the data pin shows at the rising edge of
    each clockwise turn. *)
Theorem three_cw_then_one_ccw (l1 l2 l3 : Level) :
  (max_positions (NewRotarySwitch 24) = 24
   /\ wrap_position (NewRotarySwitch 24) = true
   /\ loose (NewRotarySwitch 24) = true
   /\ cap (ch (NewRotarySwitch 24)) = 16
   /\ Position (NewRotarySwitch 24) = 0)
  /\ exists sw',
       run (NewRotarySwitch 24)
         (cw_turn l1 ++ cw_turn l2 ++ cw_turn l3 ++ ccw_turn)
       = Some sw'
       /\ buf (ch sw') = [DirectionCW; DirectionCW; DirectionCW; DirectionCCW]
       /\ Position sw' = 2.
Proof.
  split; [repeat split |].
  destruct l1, l2, l3; eexists; (split; [vm_compute; reflexivity |]);
    split; reflexivity.
Qed.

(** ** Runs without button edges, and runs without state edges *)

Lemma step_unpressed (sw sw' : RotarySwitch) (a : action) :
  unpressed sw -> not_button_edge a = true -> step sw a = Some sw' ->
  unpressed sw'.
Proof.
  intros (Hok & Hrun & Hlb & Hdir) Ha E.
  destruct a as [d s | lvl | | mode | mode]; cbn [step] in E.
  - destruct (rotary_total sw d s Hrun Hok) as [E' | [Hroom [E' | E']]];
      rewrite E' in E; cbn [after] in E; injection E as <-.
    + repeat split; fields; try assumption; apply Hok.
    + split; [apply chan_ok_stepped; assumption |].
      unfold stepped; fields. repeat split; try assumption.
      apply Forall_app; split; [assumption |].
      constructor; [left; reflexivity | constructor].
    + split; [apply chan_ok_stepped; assumption |].
      unfold stepped; fields. repeat split; try assumption.
      apply Forall_app; split; [assumption |].
      constructor; [right; reflexivity | constructor].
  - discriminate Ha.
  - destruct (step_chan_ok sw Receive Hok) as (sw1 & E1 & Hok1).
    cbn [step] in E1. rewrite E in E1. injection E1 as <-.
    split; [exact Hok1 |].
    unfold recv in E. destruct (buf (ch sw)) as [| v rest] eqn:Hb;
      injection E as <-; fields; repeat split; try assumption.
    + rewrite Hb. constructor.
    + inversion Hdir; assumption.
  - injection E as <-. repeat split; fields; try assumption; apply Hok.
  - injection E as <-. repeat split; fields; try assumption; apply Hok.
Qed.

Lemma run_unpressed (acts : list action) (sw sw' : RotarySwitch) :
  unpressed sw -> forallb not_button_edge acts = true ->
  run sw acts = Some sw' -> unpressed sw'.
Proof.
  revert sw. induction acts as [| a rest IH]; intros sw Hinv Hacts E;
    cbn [run] in E.
  - injection E as <-. exact Hinv.
  - cbn [forallb] in Hacts. apply andb_prop in Hacts as [Ha Hrest].
    destruct (step sw a) as [sw1 |] eqn:E1; [| discriminate].
    apply (IH sw1); try assumption.
    apply (step_unpressed sw sw1 a); assumption.
Qed.

Lemma unpressed_new (maxPositions : Z) : unpressed (NewRotarySwitch maxPositions).
Proof.
  split; [apply chan_ok_new |]. repeat split. constructor.
Qed.

Lemma button_keeps_shift (sw sw' : RotarySwitch) (lvl : Level) :
  buttonHandler sw lvl = Continue sw' ->
  state sw' = state sw /\ terminating sw' = terminating sw.
Proof.
  unfold buttonHandler, send.
  destruct (terminating sw) eqn:Hrun; [discriminate |].
  destruct (len (ch sw) <? channelSize sw);
    [| intros E; injection E as <-; split; [reflexivity | exact Hrun]].
  destruct (is_high lvl && is_low (last_button sw));
    [| destruct (is_low lvl && is_high (last_button sw))];
    try (destruct (len (ch sw) <? cap (ch sw)); [| discriminate]);
    intros E; injection E as <-; split; solve [reflexivity | exact Hrun].
Qed.

Lemma run_keeps_shift (acts : list action) (sw sw' : RotarySwitch) :
  forallb not_state_edge acts = true ->
  run sw acts = Some sw' ->
  state sw' = state sw /\ terminating sw' = terminating sw.
Proof.
  revert sw. induction acts as [| a rest IH]; intros sw Hacts E; cbn [run] in E.
  - injection E as <-. auto.
  - cbn [forallb] in Hacts. apply andb_prop in Hacts as [Ha Hrest].
    destruct (step sw a) as [sw1 |] eqn:E1; [| discriminate].
    destruct (IH sw1 Hrest E) as [-> ->].
    destruct a as [d s | lvl | | mode | mode]; cbn [step] in E1.
    + discriminate Ha.
    + destruct (buttonHandler sw lvl) as [| sw2 | sw2 v] eqn:Eb;
        cbn [after] in E1; [injection E1 as <-; auto | | discriminate].
      injection E1 as <-. apply (button_keeps_shift sw sw2 lvl Eb).
    + unfold recv in E1. destruct (buf (ch sw)); injection E1 as <-; auto.
    + injection E1 as <-. auto.
    + injection E1 as <-. auto.
Qed.

(** C9.  The constructor remembers the button as low.  On a switch that
    has seen no button edge since, whatever state edges, receives and
    setter calls came in between, the channel holds direction events only
    (no [ButtonPress]); when it has room and the first button edge reads
    high, one [ButtonRelease] is enqueued behind them. *)
Theorem first_button_edge_high_releases
    (maxPositions : Z) (acts : list action) (sw : RotarySwitch) :
  run (NewRotarySwitch maxPositions) acts = Some sw ->
  forallb not_button_edge acts = true ->
  len (ch sw) < channelSize sw ->
  last_button (NewRotarySwitch maxPositions) = Low
  /\ Forall is_direction (buf (ch sw))
  /\ exists sw',
       buttonHandler sw High = Continue sw'
       /\ buf (ch sw') = buf (ch sw) ++ [ButtonRelease]
       /\ last_button sw' = High.
Proof.
  intros E Hacts Hroom.
  destruct (run_unpressed acts _ sw (unpressed_new maxPositions) Hacts E)
    as ((Hcap & Hlen) & Hrun & Hlb & Hdir).
  split; [reflexivity |]. split; [exact Hdir |].
  destruct (button_edge_below_capacity_aux sw High Hrun Hcap Hroom)
    as (sw' & Eb & Hb & Hl).
  exists sw'. rewrite Hlb in Hb. auto.
Qed.

(** The theorem after one clockwise turn: the release follows the
    [DirectionCW] in the channel, and no press is there. *)
Lemma first_button_edge_high_releases_witness :
  last_button (NewRotarySwitch 24) = Low
  /\ Forall is_direction [DirectionCW]
  /\ exists sw',
       buttonHandler
         (stepped (set_state (NewRotarySwitch 24) 0xd) DirectionCW 1) High
       = Continue sw'
       /\ buf (ch sw') = [DirectionCW; ButtonRelease]
       /\ last_button sw' = High.
Proof.
  apply (first_button_edge_high_releases 24 (cw_turn Low)
           (stepped (set_state (NewRotarySwitch 24) 0xd) DirectionCW 1));
    reflexivity.
Defined.

(** C10.  When an iteration of [rotaryHandler] has enqueued an event, the
    shift state is the sentinel; whatever button edges, receives and
    setter calls come next, the following state-pin edge gives a shift
    state in 0b1100..0b1111 and its iteration only stores that value: no
    event, no change of position.  So two events of [rotaryHandler] are
    never produced by two state-pin edges in a row. *)
Theorem no_events_on_consecutive_edges
    (sw sw1 sw2 : RotarySwitch) (d1 s1 d2 s2 : Level) (env : list action) :
  rotaryHandler sw d1 s1 = Continue sw1 ->
  buf (ch sw1) <> buf (ch sw) ->
  forallb not_state_edge env = true ->
  run sw1 env = Some sw2 ->
  state sw1 = stateInvalid
  /\ 12 <= state (shift_sample sw2 d2 s2) <= 15
  /\ rotaryHandler sw2 d2 s2
     = Continue (set_state sw2 (state (shift_sample sw2 d2 s2))).
Proof.
  intros E1 Hev Henv Erun.
  assert (Hrun : terminating sw = false).
  { unfold rotaryHandler in E1. destruct (terminating sw);
      [discriminate | reflexivity]. }
  assert (Hs1 : state sw1 = stateInvalid /\ terminating sw1 = false).
  { destruct (rotary_continue_inv _ _ _ _ E1) as [-> | (v & p & ->)].
    - exfalso. apply Hev. reflexivity.
    - split; [reflexivity | exact Hrun]. }
  destruct Hs1 as [Hs1 Hrun1].
  destruct (run_keeps_shift env sw1 sw2 Henv Erun) as [Hs2 Hrun2].
  rewrite Hs1 in Hs2. rewrite Hrun1 in Hrun2.
  pose proof (shift_from_invalid sw2 d2 s2 Hs2) as Hr.
  split; [exact Hs1 |]. split; [exact Hr |].
  apply rotary_noise; [exact Hrun2 | lia | lia |].
  intros [_ H7]. lia.
Qed.

(** The theorem on a clockwise step followed by a button edge, a receive
    and the falling edge of the next clockwise turn. *)
Lemma no_events_on_consecutive_edges_witness :
  exists sw1 sw2,
    rotaryHandler (set_state (NewRotarySwitch 24) 0xd) Low High = Continue sw1
    /\ run sw1 [ButtonEdge High; Receive] = Some sw2
    /\ state sw1 = stateInvalid
    /\ 12 <= state (shift_sample sw2 High Low) <= 15
    /\ rotaryHandler sw2 High Low
       = Continue (set_state sw2 (state (shift_sample sw2 High Low))).
Proof.
  eexists. eexists.
  split; [vm_compute; reflexivity |].
  split; [vm_compute; reflexivity |].
  apply (no_events_on_consecutive_edges
           (set_state (NewRotarySwitch 24) 0xd) _ _ Low High High Low
           [ButtonEdge High; Receive]).
  - vm_compute; reflexivity.
  - vm_compute; discriminate.
  - reflexivity.
  - vm_compute; reflexivity.
Defined.

(** * More of the switch *)

(** ** What one action adds to the event stream *)

Lemma position_ccw_set_state (sw : RotarySwitch) (x : Z) :
  position_ccw (set_state sw x) = position_ccw sw.
Proof.
  unfold position_ccw. fields.
  destruct (GoInt.sub (position sw) 1 <? 0);
    [destruct (wrap_position sw) |]; reflexivity.
Qed.

(** An action appends at most one event, and the position and the
    remembered button level move with it. *)
Lemma step_effect (sw sw' : RotarySwitch) (a : action) :
  chan_ok sw ->
  step sw a = Some sw' ->
  exists new,
    taken sw a ++ buf (ch sw') = buf (ch sw) ++ new
    /\ ((new = [] /\ last_button sw' = last_button sw
         /\ position sw' = position sw)
        \/ (new = [DirectionCW] /\ last_button sw' = last_button sw
            /\ position sw' = position_cw sw)
        \/ (new = [DirectionCCW] /\ last_button sw' = last_button sw
            /\ position sw' = position_ccw sw)
        \/ (new = [ButtonRelease] /\ last_button sw = Low
            /\ last_button sw' = High /\ position sw' = position sw)
        \/ (new = [ButtonPress] /\ last_button sw = High
            /\ last_button sw' = Low /\ position sw' = position sw)).
Proof.
  intros Hok E. pose proof Hok as [Hcap Hlen].
  destruct a as [d s | lvl | | mode | mode]; unfold taken; cbn [step] in E.
  - destruct (terminating sw) eqn:Hrun.
    { unfold rotaryHandler in E. rewrite Hrun in E. injection E as <-.
      exists []. rewrite app_nil_r. auto. }
    destruct (rotary_total sw d s Hrun Hok) as [E' | [Hroom [E' | E']]];
      rewrite E' in E; injection E as <-.
    + exists []. rewrite app_nil_r. auto.
    + exists [DirectionCW]. split; [reflexivity |]. right; left. auto.
    + exists [DirectionCCW]. split; [reflexivity |]. right; right; left. auto.
  - destruct (terminating sw) eqn:Hrun.
    { unfold buttonHandler in E. rewrite Hrun in E. injection E as <-.
      exists []. rewrite app_nil_r. auto. }
    destruct (Z.lt_ge_cases (len (ch sw)) (channelSize sw)) as [Hroom | Hfull].
    + rewrite button_room in E by assumption. injection E as <-. fields.
      destruct lvl, (last_button sw) eqn:Hl.
      * exists []. auto.
      * exists [ButtonPress]. split; [reflexivity |]. do 4 right. auto.
      * exists [ButtonRelease]. split; [reflexivity |]. do 3 right; left. auto.
      * exists []. auto.
    + rewrite button_full in E by assumption. injection E as <-.
      exists []. rewrite app_nil_r. auto.
  - unfold recv in *. destruct (buf (ch sw)) as [| v rest] eqn:Hb;
      injection E as <-; exists []; fields; rewrite ?Hb, ?app_nil_r; auto.
  - injection E as <-. exists []. rewrite app_nil_r. auto.
  - injection E as <-. exists []. rewrite app_nil_r. auto.
Qed.

Lemma alternates_app (last : Level) (h n : list RotarySwitchValue) :
  alternates last (h ++ n)
  = alternates last h && alternates (level_after last h) n.
Proof.
  revert last. induction h as [| v h IH]; intros last; cbn; [reflexivity |].
  destruct v; rewrite ?IH, ?Bool.andb_assoc; reflexivity.
Qed.

Lemma level_after_app (last : Level) (h n : list RotarySwitchValue) :
  level_after last (h ++ n) = level_after (level_after last h) n.
Proof.
  revert last. induction h as [| v h IH]; intros last; cbn; [reflexivity |].
  destruct v; apply IH.
Qed.


Lemma run_alternates (acts : list action) (sw sw' : RotarySwitch)
    (pre : list RotarySwitchValue) :
  chan_ok sw ->
  run sw acts = Some sw' ->
  alternates Low (pre ++ buf (ch sw)) = true ->
  level_after Low (pre ++ buf (ch sw)) = last_button sw ->
  alternates Low (pre ++ received sw acts ++ buf (ch sw')) = true
  /\ level_after Low (pre ++ received sw acts ++ buf (ch sw')) = last_button sw'.
Proof.
  revert sw pre. induction acts as [| a rest IH]; intros sw pre Hok E Ha Hl;
    cbn [run received] in *.
  - injection E as <-. auto.
  - destruct (step sw a) as [sw1 |] eqn:E1; [| discriminate].
    destruct (step_chan_ok sw a Hok) as (sw1' & E1' & Hok1).
    rewrite E1 in E1'. injection E1' as <-.
    destruct (step_effect sw sw1 a Hok E1) as (new & Hh & Hcases).
    rewrite <- app_assoc, (app_assoc pre).
    assert (Hhist : (pre ++ taken sw a) ++ buf (ch sw1)
                    = (pre ++ buf (ch sw)) ++ new).
    { rewrite <- !app_assoc. f_equal. exact Hh. }
    apply (IH sw1 (pre ++ taken sw a) Hok1 E); rewrite Hhist.
    + rewrite alternates_app, Ha, Hl. cbn [andb].
      destruct Hcases as [(-> & _) | [(-> & _) | [(-> & _)
        | [(-> & -> & _) | (-> & -> & _)]]]]; reflexivity.
    + rewrite level_after_app, Hl.
      destruct Hcases as [(-> & -> & _) | [(-> & -> & _) | [(-> & -> & _)
        | [(-> & _ & -> & _) | (-> & _ & -> & _)]]]]; reflexivity.
Qed.


Lemma step_keeps_size (sw sw' : RotarySwitch) (a : action) :
  step sw a = Some sw' -> channelSize sw' = channelSize sw.
Proof.
  destruct a as [d s | lvl | | mode | mode]; cbn [step]; intros E.
  - destruct (rotaryHandler sw d s) as [| sw2 | sw2 v] eqn:Er;
      cbn [after] in E; [congruence | | discriminate].
    injection E as ->.
    destruct (rotary_continue_inv _ _ _ _ Er) as [-> | (v & p & ->)];
      reflexivity.
  - destruct (buttonHandler sw lvl) as [| sw2 | sw2 v] eqn:Eb;
      cbn [after] in E; [congruence | | discriminate].
    injection E as ->. revert Eb. unfold buttonHandler, send.
    destruct (terminating sw); [discriminate |].
    destruct (len (ch sw) <? channelSize sw);
      [| intros E; injection E as <-; reflexivity].
    destruct (is_high lvl && is_low (last_button sw));
      [| destruct (is_low lvl && is_high (last_button sw))];
      try (destruct (len (ch sw) <? cap (ch sw)); [| discriminate]);
      intros E; injection E as <-; reflexivity.
  - unfold recv in E. destruct (buf (ch sw)); injection E as <-; reflexivity.
  - injection E as <-. reflexivity.
  - injection E as <-. reflexivity.
Qed.

Lemma run_keeps_size (acts : list action) (sw sw' : RotarySwitch) :
  run sw acts = Some sw' -> channelSize sw' = channelSize sw.
Proof.
  revert sw. induction acts as [| a rest IH]; intros sw E; cbn [run] in E.
  - injection E as <-. reflexivity.
  - destruct (step sw a) as [sw1 |] eqn:E1; [| discriminate].
    rewrite (IH sw1 E). apply (step_keeps_size sw sw1 a E1).
Qed.

(** After two edges the shift state holds these two samples and nothing
    of what was there before. *)
Lemma shift_twice (sw : RotarySwitch) (d1 s1 d2 s2 : Level) :
  state (shift_sample (set_state sw (state (shift_sample sw d1 s1))) d2 s2)
  = 4 * (level_bit s1 2 + level_bit d1 1) + level_bit s2 2 + level_bit d2 1.
Proof.
  rewrite (shift_sample_value (set_state sw _)). cbn [set_state state].
  rewrite shift_sample_value.
  replace (4 * (state sw mod 4) + level_bit s1 2 + level_bit d1 1)
    with (level_bit s1 2 + level_bit d1 1 + (state sw mod 4) * 4) by lia.
  rewrite Z_mod_plus_full.
  rewrite Z.mod_small; [reflexivity |].
  unfold level_bit; destruct d1, s1; cbn [is_high]; lia.
Qed.

(** * More properties of the switch *)

(** X2's witness: a switch built for 5 positions with wrapping switched
    off, six clockwise turns and one back. *)
Lemma position_bounds_without_wrap_witness :
  exists sw',
    run (SetWrap (NewRotarySwitch 5) false)
      (concat (repeat (cw_turn Low) 6) ++ ccw_turn)
    = Some sw'
    /\ 0 <= position sw' <= max_positions sw'.
Proof.
  apply (position_bounds_without_wrap (SetWrap (NewRotarySwitch 5) false)).
  - apply (chan_ok_new 5).
  - reflexivity.
  - vm_compute; split; [discriminate | reflexivity].
  - reflexivity.
  - reflexivity.
Defined.

(** X3.  A turn decodes the same whatever the shift state held before
    it.  On a running switch with room in the channel, the two edges of a
    clockwise turn enqueue exactly one [DirectionCW], the two edges of a
    counter-clockwise turn exactly one [DirectionCCW]; a clockwise turn
    whose data pin is read late enqueues the [DirectionCW] in loose mode,
    and otherwise nothing, leaving 0b0111 in the shift state. *)
Theorem turn_decodes_from_any_shift_state (sw : RotarySwitch) :
  terminating sw = false ->
  cap (ch sw) = channelSize sw ->
  len (ch sw) < channelSize sw ->
  run sw (cw_turn Low) = Some (stepped sw DirectionCW (position_cw sw))
  /\ run sw ccw_turn = Some (stepped sw DirectionCCW (position_ccw sw))
  /\ run sw (cw_turn High)
     = Some (if loose sw then stepped sw DirectionCW (position_cw sw)
             else set_state sw 0x07).
Proof.
  intros Hrun Hcap Hroom.
  assert (Hm : 0 <= state sw mod 4 < 4) by (apply Z.mod_pos_bound; lia).
  assert (Hcw1 : rotaryHandler sw High Low
                 = Continue (set_state sw (state (shift_sample sw High Low)))).
  { apply rotary_noise; [exact Hrun | | |];
      rewrite shift_sample_value; cbn [level_bit is_high]; lia. }
  assert (Hccw1 : rotaryHandler sw Low Low
                  = Continue (set_state sw (state (shift_sample sw Low Low)))).
  { apply rotary_noise; [exact Hrun | | |];
      rewrite shift_sample_value; cbn [level_bit is_high]; lia. }
  split; [| split].
  - cbn [run cw_turn step]. rewrite Hcw1. cbn [after].
    rewrite rotary_cw; [| exact Hrun | exact Hcap | exact Hroom
                        | left; apply shift_twice].
    cbn [after]. rewrite position_cw_set_state. reflexivity.
  - cbn [run ccw_turn step]. rewrite Hccw1. cbn [after].
    rewrite rotary_ccw; [| exact Hrun | exact Hcap | exact Hroom
                         | apply shift_twice].
    cbn [after]. rewrite position_ccw_set_state. reflexivity.
  - cbn [run cw_turn step]. rewrite Hcw1. cbn [after].
    destruct (loose sw) eqn:Hl.
    + rewrite rotary_cw; [| exact Hrun | exact Hcap | exact Hroom
                          | right; split; [exact Hl | apply shift_twice]].
      cbn [after]. rewrite position_cw_set_state. reflexivity.
    + rewrite rotary_noise; [| exact Hrun | | |];
        rewrite ?shift_twice; cbn [level_bit is_high];
        try lia; [reflexivity |].
      intros [E _]. cbn [set_state loose] in E. congruence.
Qed.

(** The theorem on a switch whose shift state holds a half-finished
    counter-clockwise turn. *)
Lemma turn_decodes_from_any_shift_state_witness :
  run nowrap_at_zero (cw_turn Low)
  = Some (stepped nowrap_at_zero DirectionCW 1)
  /\ run nowrap_at_zero ccw_turn
     = Some (stepped nowrap_at_zero DirectionCCW 0)
  /\ run nowrap_at_zero (cw_turn High)
     = Some (stepped nowrap_at_zero DirectionCW 1).
Proof.
  apply (turn_decodes_from_any_shift_state nowrap_at_zero); reflexivity.
Defined.

(** X4.  Along every run from the constructor the button events of the
    stream take turns, a release first: no two presses and no two
    releases follow each other, also when events were dropped on a full
    channel in between. *)
Theorem button_events_alternate (maxPositions : Z) (acts : list action) :
  exists sw',
    run (NewRotarySwitch maxPositions) acts = Some sw'
    /\ alternates Low (stream (NewRotarySwitch maxPositions) acts sw') = true
    /\ last_button sw'
       = level_after Low (stream (NewRotarySwitch maxPositions) acts sw').
Proof.
  destruct (run_chan_ok acts _ (chan_ok_new maxPositions)) as (sw' & E & _).
  exists sw'. split; [exact E |].
  destruct (run_alternates acts _ sw' [] (chan_ok_new maxPositions) E)
    as [Ha Hl]; [reflexivity | reflexivity |].
  unfold stream. cbn [app] in Ha, Hl. auto.
Qed.



(** X6.  Once [Close] has run on a switch that held its pins, an edge on
    either pin makes its handler return without touching the switch or
    the channel, so no run of edges changes anything; the position is the
    one before [Close]; and a second [Close] does nothing. *)
Theorem closed_switch_is_inert (h : Handle) (acts : list action) :
  pins_held h = true ->
  forallb is_edge acts = true ->
  (forall d s, rotaryHandler (switch (Close h)) d s = Return)
  /\ (forall lvl, buttonHandler (switch (Close h)) lvl = Return)
  /\ run (switch (Close h)) acts = Some (switch (Close h))
  /\ Position (switch (Close h)) = Position (switch h)
  /\ ch (switch (Close h)) = ch (switch h)
  /\ Close (Close h) = Close h.
Proof.
  intros Hp Hacts. unfold Close at 1 2 3 4 5 6 7. rewrite Hp. cbn [negb switch].
  split; [reflexivity |]. split; [reflexivity |].
  split; [| split; [reflexivity | split; [reflexivity |]]].
  - induction acts as [| a rest IH]; [reflexivity |].
    cbn [forallb] in Hacts. apply andb_prop in Hacts as [Ha Hrest].
    destruct a as [d s | lvl | | mode | mode]; try discriminate Ha;
      cbn [run step]; apply (IH Hrest).
  - unfold Close. rewrite Hp. reflexivity.
Qed.

(** The theorem on a fresh switch that is closed and then sees a turn
    and a button edge. *)
Lemma closed_switch_is_inert_witness :
  run (switch (Close (mkHandle (NewRotarySwitch 24) true true)))
    (cw_turn Low ++ [ButtonEdge High])
  = Some (switch (Close (mkHandle (NewRotarySwitch 24) true true)))
  /\ Close (Close (mkHandle (NewRotarySwitch 24) true true))
     = Close (mkHandle (NewRotarySwitch 24) true true).
Proof.
  destruct (closed_switch_is_inert (mkHandle (NewRotarySwitch 24) true true)
              (cw_turn Low ++ [ButtonEdge High]))
    as (_ & _ & Hr & _ & _ & Hc); [reflexivity | reflexivity |].
  split; [exact Hr | exact Hc].
Defined.

(** * The IO expander *)

(** ** Bytes *)

Lemma byte_value_range (b : Byte.byte) : 0 <= byte_value b < 256.
Proof.
  unfold byte_value. pose proof (Byte.to_N_bounded b) as H. lia.
Qed.

Lemma in_all_bytes (v : Z) : 0 <= v < 256 -> In v all_bytes.
Proof.
  intros Hv. unfold all_bytes. apply in_map_iff.
  exists (Z.to_nat v). split; [lia |]. apply in_seq. lia.
Qed.

Lemma testbit_above_byte (v n : Z) :
  0 <= v < 256 -> 8 <= n -> Z.testbit v n = false.
Proof.
  intros Hv Hn. apply Z.testbit_false; [lia |].
  assert (Hpow : 2 ^ 8 <= 2 ^ n) by (apply Z.pow_le_mono_r; lia).
  change (2 ^ 8) with 256 in Hpow.
  rewrite Z.div_small by lia. reflexivity.
Qed.

Lemma byte_from_bits (v : Z) :
  0 <= v -> (forall n, 8 <= n -> Z.testbit v n = false) -> 0 <= v < 256.
Proof.
  intros Hv Hhigh.
  assert (E : v = v mod 2 ^ 8).
  { apply Z.bits_inj'. intros n Hn.
    destruct (Z.lt_ge_cases n 8) as [Hlt | Hge].
    - rewrite Z.mod_pow2_bits_low by lia. reflexivity.
    - rewrite Z.mod_pow2_bits_high by lia. apply Hhigh. exact Hge. }
  rewrite E. change (2 ^ 8) with 256. apply Z.mod_pos_bound. lia.
Qed.

(** ** The two mask tables *)

Lemma small_cases (bit : Z) :
  0 <= bit < 8 ->
  bit = 0 \/ bit = 1 \/ bit = 2 \/ bit = 3
  \/ bit = 4 \/ bit = 5 \/ bit = 6 \/ bit = 7.
Proof. lia. Qed.

Lemma maskOn_at (bit : Z) :
  0 <= bit < 8 -> index Mcp23008.maskOn bit = Done (2 ^ bit).
Proof.
  intros H. destruct (small_cases bit H)
    as [-> | [-> | [-> | [-> | [-> | [-> | [-> | ->]]]]]]]; reflexivity.
Qed.

Lemma maskOff_at (bit : Z) :
  0 <= bit < 8 -> index Mcp23008.maskOff bit = Done (Z.ldiff (Z.ones 8) (2 ^ bit)).
Proof.
  intros H. destruct (small_cases bit H)
    as [-> | [-> | [-> | [-> | [-> | [-> | [-> | ->]]]]]]]; reflexivity.
Qed.

Lemma index_out_of_range {A : Type} (l : list A) (i : Z) :
  i < 0 \/ Z.of_nat (length l) <= i -> index l i = Panic.
Proof.
  intros H. unfold index. destruct (Z.ltb_spec i 0) as [| Hge]; [reflexivity |].
  assert (Hn : nth_error l (Z.to_nat i) = None) by (apply nth_error_None; lia).
  rewrite Hn. reflexivity.
Qed.

(** ** [SetBit] *)

Lemma SetBit_bits (value bit : Z) (on : bool) :
  0 <= value < 256 ->
  0 <= bit < 8 ->
  exists v,
    Mcp23008.SetBit value bit on = Done v
    /\ 0 <= v < 256
    /\ forall j, 0 <= j ->
         Z.testbit v j = if j =? bit then on else Z.testbit value j.
Proof.
  intros Hv Hb. unfold Mcp23008.SetBit. destruct on.
  - rewrite maskOn_at by exact Hb. cbn [bind]. eexists. split; [reflexivity |].
    assert (Hbits : forall j, 0 <= j ->
              Z.testbit (Z.lor value (2 ^ bit)) j
              = if j =? bit then true else Z.testbit value j).
    { intros j Hj. rewrite Z.lor_spec, Z.pow2_bits_eqb by lia.
      rewrite (Z.eqb_sym bit j). destruct (j =? bit);
        [apply Bool.orb_true_r | apply Bool.orb_false_r]. }
    split; [| exact Hbits].
    apply byte_from_bits.
    + apply Z.lor_nonneg. split; [lia |]. apply Z.pow_nonneg. lia.
    + intros n Hn. rewrite Hbits by lia.
      destruct (Z.eqb_spec n bit); [lia |]. apply testbit_above_byte; lia.
  - rewrite maskOff_at by exact Hb. cbn [bind]. eexists. split; [reflexivity |].
    assert (Hbits : forall j, 0 <= j ->
              Z.testbit (Z.land value (Z.ldiff (Z.ones 8) (2 ^ bit))) j
              = if j =? bit then false else Z.testbit value j).
    { intros j Hj.
      rewrite Z.land_spec, Z.ldiff_spec, Z.pow2_bits_eqb by lia.
      rewrite (Z.eqb_sym bit j). destruct (Z.eqb_spec j bit) as [-> | Hne].
      - cbn [negb]. rewrite Bool.andb_false_r. apply Bool.andb_false_r.
      - cbn [negb]. rewrite Bool.andb_true_r.
        destruct (Z.lt_ge_cases j 8) as [Hlt | Hge].
        + rewrite Z.ones_spec_low by lia. apply Bool.andb_true_r.
        + rewrite (testbit_above_byte value j) by lia. reflexivity. }
    split; [| exact Hbits].
    apply byte_from_bits.
    + apply Z.land_nonneg. left. lia.
    + intros n Hn. rewrite Hbits by lia.
      destruct (Z.eqb_spec n bit); [reflexivity |].
      apply testbit_above_byte; lia.
Qed.

Lemma land_pow2 (a n : Z) :
  0 <= n -> Z.land a (2 ^ n) = if Z.testbit a n then 2 ^ n else 0.
Proof.
  intros Hn. apply Z.bits_inj'. intros m Hm.
  rewrite Z.land_spec, Z.pow2_bits_eqb by lia.
  destruct (Z.eqb_spec n m) as [<- | Hne].
  - destruct (Z.testbit a n).
    + rewrite Z.pow2_bits_eqb, Z.eqb_refl by lia. reflexivity.
    + rewrite Z.bits_0. reflexivity.
  - rewrite Bool.andb_false_r. destruct (Z.testbit a n).
    + rewrite Z.pow2_bits_eqb by lia.
      symmetry. apply Z.eqb_neq. exact Hne.
    + rewrite Z.bits_0. reflexivity.
Qed.

Lemma byte_shift_high (pin : Z) : 8 <= pin -> to_byte (Z.shiftl 1 pin) = 0.
Proof.
  intros H. unfold to_byte. rewrite Z.shiftl_mul_pow2 by lia.
  replace pin with (pin - 8 + 8) by lia.
  rewrite Z.pow_add_r by lia. change (2 ^ 8) with 256.
  rewrite Z.mul_1_l. apply Z_mod_mult.
Qed.

Lemma byte_shift_low (pin : Z) :
  0 <= pin < 8 -> to_byte (Z.shiftl 1 pin) = 2 ^ pin.
Proof.
  intros H. destruct (small_cases pin H)
    as [-> | [-> | [-> | [-> | [-> | [-> | [-> | ->]]]]]]]; reflexivity.
Qed.

(** X7.  On a byte and a bit number from 0 to 7, [SetBit] gives a byte
    whose bit of that number is the value asked for and whose other bits
    are those of the byte given. *)
Theorem SetBit_sets_one_bit (value bit : Z) (on : bool) :
  0 <= value < 256 ->
  0 <= bit < 8 ->
  exists v,
    Mcp23008.SetBit value bit on = Done v
    /\ 0 <= v < 256
    /\ forall j, 0 <= j ->
         Z.testbit v j = if j =? bit then on else Z.testbit value j.
Proof. apply SetBit_bits. Qed.

(** The theorem on 0b10100101, bit 3 switched on. *)
Lemma SetBit_sets_one_bit_witness :
  exists v,
    Mcp23008.SetBit 0xa5 3 true = Done v
    /\ 0 <= v < 256
    /\ forall j, 0 <= j ->
         Z.testbit v j = if j =? 3 then true else Z.testbit 0xa5 j.
Proof.
  apply (SetBit_sets_one_bit 0xa5 3 true); vm_compute; split;
    solve [discriminate | reflexivity].
Defined.

(** X8.  A bit number below 0 or above 7 indexes past the mask tables:
    [SetBit] panics, whatever the byte and the value asked for. *)
Theorem SetBit_out_of_range_panics (value bit : Z) (on : bool) :
  bit < 0 \/ 8 <= bit ->
  Mcp23008.SetBit value bit on = Panic.
Proof.
  intros H. unfold Mcp23008.SetBit.
  destruct on; rewrite index_out_of_range by exact H; reflexivity.
Qed.

Lemma SetBit_out_of_range_panics_witness :
  Mcp23008.SetBit 0 8 true = Panic.
Proof.
  apply (SetBit_out_of_range_panics 0 8 true). right. discriminate.
Defined.

(** X9.  Writes compose bit by bit: of two writes to the same bit the
    later one decides, and writes to two different bits give the same
    byte in either order. *)
Theorem SetBit_writes_compose (value b1 b2 : Z) (x y : bool) :
  0 <= value < 256 ->
  0 <= b1 < 8 ->
  0 <= b2 < 8 ->
  (exists v1 v2,
      Mcp23008.SetBit value b1 x = Done v1
      /\ Mcp23008.SetBit v1 b1 y = Done v2
      /\ Mcp23008.SetBit value b1 y = Done v2)
  /\ (b1 <> b2 ->
      exists v1 v2 v,
        Mcp23008.SetBit value b1 x = Done v1
        /\ Mcp23008.SetBit v1 b2 y = Done v
        /\ Mcp23008.SetBit value b2 y = Done v2
        /\ Mcp23008.SetBit v2 b1 x = Done v).
Proof.
  intros Hv H1 H2.
  destruct (SetBit_bits value b1 x Hv H1) as (v1 & E1 & R1 & B1).
  split.
  - destruct (SetBit_bits v1 b1 y R1 H1) as (v2 & E2 & R2 & B2).
    destruct (SetBit_bits value b1 y Hv H1) as (v2' & E2' & R2' & B2').
    exists v1, v2. split; [exact E1 |]. split; [exact E2 |].
    rewrite E2'. f_equal. apply Z.bits_inj'. intros j Hj.
    rewrite B2, B2', B1 by lia. destruct (j =? b1); reflexivity.
  - intros Hne.
    destruct (SetBit_bits v1 b2 y R1 H2) as (v & E & R & B).
    destruct (SetBit_bits value b2 y Hv H2) as (v2 & E2 & R2 & B2).
    destruct (SetBit_bits v2 b1 x R2 H1) as (v' & E' & R' & B').
    exists v1, v2, v. split; [exact E1 |]. split; [exact E |].
    split; [exact E2 |]. rewrite E'. f_equal. apply Z.bits_inj'. intros j Hj.
    rewrite B, B', B1, B2 by lia.
    destruct (Z.eqb_spec j b1), (Z.eqb_spec j b2); try reflexivity. lia.
Qed.

Lemma SetBit_writes_compose_witness :
  (exists v1 v2,
      Mcp23008.SetBit 0xa5 0 false = Done v1
      /\ Mcp23008.SetBit v1 0 true = Done v2
      /\ Mcp23008.SetBit 0xa5 0 true = Done v2)
  /\ (0 <> 6 ->
      exists v1 v2 v,
        Mcp23008.SetBit 0xa5 0 false = Done v1
        /\ Mcp23008.SetBit v1 6 true = Done v
        /\ Mcp23008.SetBit 0xa5 6 true = Done v2
        /\ Mcp23008.SetBit v2 0 false = Done v).
Proof.
  apply (SetBit_writes_compose 0xa5 0 6 false true); vm_compute; split;
    solve [discriminate | reflexivity].
Defined.

(** X10.  [ReadPullup] sends one read of GPPU.  A negative pin number
    panics in the shift; for a pin from 0 to 7 the result is that bit of
    the register; for a pin number of 8 or more the shifted byte is 0 and
    the result is [true] whatever the register holds. *)
Theorem ReadPullup_pin_range {error : Type} (respond : responder error)
    (c : conn) (pin : Z) :
  Mcp23008.ReadPullup respond c pin
  = if pin <? 0 then Panic
    else
      Done (c ++ [[Mcp23008.GPPU]],
            (if pin <? 8
             then Z.testbit (byte_value (fst (respond c [Mcp23008.GPPU]))) pin
             else true),
            snd (respond c [Mcp23008.GPPU])).
Proof.
  unfold Mcp23008.ReadPullup, Mcp23008.ReadRegister, Tx.
  destruct (Z.ltb_spec pin 0) as [| Hge]; [reflexivity |].
  f_equal. f_equal. f_equal.
  destruct (Z.ltb_spec pin 8) as [Hlt | Hhigh].
  - rewrite byte_shift_low, land_pow2 by lia.
    destruct (Z.testbit _ pin).
    + apply Z.eqb_refl.
    + apply Z.eqb_neq. assert (0 < 2 ^ pin) by (apply Z.pow_pos_nonneg; lia).
      lia.
  - rewrite byte_shift_high by lia. rewrite Z.land_0_r. reflexivity.
Qed.

Lemma WriteGPIOPin_effect {error : Type} (respond : responder error)
    (c : conn) (pin : Z) (on : bool) :
  0 <= pin < 8 ->
  let cur := byte_value (fst (respond c [Mcp23008.GPIO])) in
  exists v,
    Mcp23008.SetBit cur pin on = Done v
    /\ Mcp23008.WriteGPIOPin respond c pin on
       = if Bool.eqb (Z.testbit cur pin) on
         then Done (c ++ [[Mcp23008.GPIO]], cur, None)
         else Done (c ++ [[Mcp23008.GPIO]; [Mcp23008.GPIO; v]], cur,
                    snd (respond (c ++ [[Mcp23008.GPIO]]) [Mcp23008.GPIO; v])).
Proof.
  intros Hpin cur.
  destruct (SetBit_bits cur pin on (byte_value_range _) Hpin)
    as (v & E & R & B).
  exists v. split; [exact E |].
  unfold Mcp23008.WriteGPIOPin, Mcp23008.ReadGPIO, Mcp23008.ReadRegister,
    Mcp23008.WriteGPIO, Mcp23008.WriteRegister, Tx.
  fold cur. rewrite E. cbn [bind].
  destruct (Z.eqb_spec v cur) as [Heq | Hne].
  - assert (Hb : Z.testbit cur pin = on).
    { rewrite <- Heq at 1. rewrite B by lia. rewrite Z.eqb_refl. reflexivity. }
    rewrite Hb, Bool.eqb_reflx. reflexivity.
  - assert (Hb : Bool.eqb (Z.testbit cur pin) on = false).
    { apply Bool.eqb_false_iff. intros Hb. apply Hne.
      apply Z.bits_inj'. intros j Hj. rewrite B by lia.
      destruct (Z.eqb_spec j pin) as [-> | _]; [symmetry; exact Hb | reflexivity]. }
    rewrite Hb, <- app_assoc. reflexivity.
Qed.

(** X11.  [WriteGPIOPin] on a pin from 0 to 7 reads GPIO once.  When
    the pin already has the level asked for it writes nothing and
    reports no error, also when the read failed; otherwise it writes the
    byte with that one bit changed and reports the error of the write
    alone.  Either way it returns the byte read. *)
Theorem WriteGPIOPin_writes_on_change {error : Type} (respond : responder error)
    (c : conn) (pin : Z) (on : bool) :
  0 <= pin < 8 ->
  let cur := byte_value (fst (respond c [Mcp23008.GPIO])) in
  exists v,
    Mcp23008.SetBit cur pin on = Done v
    /\ Mcp23008.WriteGPIOPin respond c pin on
       = if Bool.eqb (Z.testbit cur pin) on
         then Done (c ++ [[Mcp23008.GPIO]], cur, None)
         else Done (c ++ [[Mcp23008.GPIO]; [Mcp23008.GPIO; v]], cur,
                    snd (respond (c ++ [[Mcp23008.GPIO]]) [Mcp23008.GPIO; v])).
Proof. apply WriteGPIOPin_effect. Qed.

(** The theorem on a device that answers 0: switching pin 7 on writes
    0x80, switching pin 1 off writes nothing. *)
Lemma WriteGPIOPin_writes_on_change_witness :
  Mcp23008.WriteGPIOPin quiet [] 7 true = Done ([[9]; [9; 0x80]], 0, None)
  /\ Mcp23008.WriteGPIOPin quiet [] 1 false = Done ([[9]], 0, None).
Proof.
  split.
  - destruct (WriteGPIOPin_writes_on_change quiet [] 7 true)
      as (v & E & Hw); [vm_compute; split; [discriminate | reflexivity] |].
    vm_compute in E. injection E as <-. exact Hw.
  - destruct (WriteGPIOPin_writes_on_change quiet [] 1 false)
      as (v & E & Hw); [vm_compute; split; [discriminate | reflexivity] |].
    exact Hw.
Defined.

(** * The I2C backpack *)

Lemma nibble_table :
  forallb (fun cur => forallb (nibble_ok cur) all_nibbles) all_bytes = true.
Proof. vm_compute. reflexivity. Qed.

Lemma nibble_facts (cur value : Z) :
  0 <= cur < 256 ->
  nibble_ok cur (value mod 16) = true.
Proof.
  intros Hc. pose proof nibble_table as T.
  rewrite forallb_forall in T. specialize (T cur (in_all_bytes cur Hc)).
  rewrite forallb_forall in T. apply T.
  unfold all_nibbles. apply in_map_iff.
  assert (Hm : 0 <= value mod 16 < 16) by (apply Z.mod_pos_bound; lia).
  exists (Z.to_nat (value mod 16)). split; [lia |]. apply in_seq. lia.
Qed.

Lemma low_nibble (value : Z) : Z.land value 0x0f = value mod 16.
Proof.
  change 0x0f with (Z.ones 4). rewrite Z.land_ones by lia. reflexivity.
Qed.

(** [write4Bits], in full. *)
Lemma write4Bits_effect {error : Type} (respond : responder error)
    (c : conn) (value : Z) :
  let cur := byte_value (fst (respond c [Mcp23008.GPIO])) in
  let w := nibble_frame cur (value mod 16) in
  I2cBackpack.write4Bits respond c value
  = match snd (respond c [Mcp23008.GPIO]) with
    | Some e => (c ++ [[Mcp23008.GPIO]], Some e)
    | None =>
        (c ++ [[Mcp23008.GPIO]; [Mcp23008.GPIO; w];
               [Mcp23008.GPIO; w + 4]; [Mcp23008.GPIO; w]],
         snd (respond
                (c ++ [[Mcp23008.GPIO]; [Mcp23008.GPIO; w];
                       [Mcp23008.GPIO; w + 4]])
                [Mcp23008.GPIO; w]))
    end.
Proof.
  intros cur w.
  pose proof (nibble_facts cur value (byte_value_range _)) as F.
  unfold nibble_ok in F. fold w in F.
  repeat (apply andb_prop in F; destruct F as [F ?]).
  unfold I2cBackpack.write4Bits, Mcp23008.ReadGPIO, Mcp23008.ReadRegister,
    Mcp23008.WriteGPIO, Mcp23008.WriteRegister, Tx.
  fold cur. rewrite low_nibble. fold (nibble_frame cur (value mod 16)). fold w.
  destruct (snd (respond c [Mcp23008.GPIO])); [reflexivity |].
  match goal with H : (Z.land (Z.lor w 4) 251 =? w) = true |- _ =>
    apply Z.eqb_eq in H; rewrite H end.
  match goal with H : (Z.lor w 4 =? w + 4) = true |- _ =>
    apply Z.eqb_eq in H; rewrite H end.
  rewrite <- !app_assoc. reflexivity.
Qed.

(** X12.  [write4Bits] reads GPIO once.  When the read fails it writes
    nothing and returns that error.  Otherwise it writes GPIO three times:
    a byte [w] that keeps pins 0, 1 and 7 as read, has the enable pin 2
    low and carries the low four bits of the value on pins 3 to 6; then
    [w] with the enable pin high; then [w] again.  The error returned is
    the one of the third write. *)
Theorem write4Bits_pulses_enable {error : Type} (respond : responder error)
    (c : conn) (value : Z) :
  let cur := byte_value (fst (respond c [Mcp23008.GPIO])) in
  match snd (respond c [Mcp23008.GPIO]) with
  | Some e =>
      I2cBackpack.write4Bits respond c value
      = (c ++ [[Mcp23008.GPIO]], Some e)
  | None =>
      exists w,
        I2cBackpack.write4Bits respond c value
        = (c ++ [[Mcp23008.GPIO]; [Mcp23008.GPIO; w];
                 [Mcp23008.GPIO; Z.lor w 0x04]; [Mcp23008.GPIO; w]],
           snd (respond
                  (c ++ [[Mcp23008.GPIO]; [Mcp23008.GPIO; w];
                         [Mcp23008.GPIO; Z.lor w 0x04]])
                  [Mcp23008.GPIO; w]))
        /\ 0 <= w < 256
        /\ Z.testbit w 0 = Z.testbit cur 0
        /\ Z.testbit w 1 = Z.testbit cur 1
        /\ Z.testbit w 7 = Z.testbit cur 7
        /\ Z.testbit w 2 = false
        /\ Z.testbit (Z.lor w 0x04) 2 = true
        /\ forall k, 0 <= k < 4 -> Z.testbit w (3 + k) = Z.testbit value k
  end.
Proof.
  intros cur. pose proof (write4Bits_effect respond c value) as E.
  cbv zeta in E. fold cur in E.
  destruct (snd (respond c [Mcp23008.GPIO])); [exact E |].
  set (w := nibble_frame cur (value mod 16)) in *.
  pose proof (nibble_facts cur value (byte_value_range _)) as F.
  unfold nibble_ok in F. fold w in F.
  repeat (apply andb_prop in F; destruct F as [F ?]).
  repeat match goal with
         | H : Bool.eqb _ _ = true |- _ => apply Bool.eqb_prop in H
         | H : (_ =? _) = true |- _ => apply Z.eqb_eq in H
         | H : (_ <? _) = true |- _ => apply Z.ltb_lt in H
         end.
  apply Z.leb_le in F.
  assert (Hor : Z.lor w 4 = w + 4) by assumption.
  exists w. rewrite Hor. split; [exact E |].
  split; [lia |]. repeat (split; [assumption |]).
  split.
  - rewrite <- Hor, Z.lor_spec. apply Bool.orb_true_r.
  - intros k Hk.
    assert (Hv : Z.testbit (value mod 16) k = Z.testbit value k).
    { change 16 with (2 ^ 4). apply Z.mod_pow2_bits_low. lia. }
    rewrite <- Hv.
    assert (Hc : k = 0 \/ k = 1 \/ k = 2 \/ k = 3) by lia.
    destruct Hc as [-> | [-> | [-> | ->]]]; assumption.
Qed.

Lemma SendCommand_done {error : Type} (respond : responder error)
    (c : conn) (commands : list Z) :
  exists c' e, I2cBackpack.SendCommand respond c commands = Done (c', e).
Proof.
  unfold I2cBackpack.SendCommand.
  destruct (WriteGPIOPin_effect respond c I2cBackpack.rsPin
              I2cBackpack.modeCommand) as (v & _ & E);
    [unfold I2cBackpack.rsPin; lia |].
  rewrite E. destruct (Bool.eqb _ _); cbn [bind]; eexists; eexists; reflexivity.
Qed.

(** X13.  [Write] on the backpack: nothing is done for an empty slice;
    a slice that holds the command byte 0xfe alone panics on [p[1]]; a
    longer slice that starts with 0xfe sends its second byte as one
    command, ignores every byte after it, and returns [n = 0] and no
    error whatever happened on the bus. *)
Theorem backpack_Write_command_frame {error : Type} (respond : responder error)
    (c : conn) :
  I2cBackpack.Write respond c [] = Done (c, 0, None)
  /\ I2cBackpack.Write respond c [I2cBackpack.cmdByte] = Panic
  /\ forall (command : Z) (rest : list Z),
       exists c' e,
         I2cBackpack.SendCommand respond c [command] = Done (c', e)
         /\ I2cBackpack.Write respond c (I2cBackpack.cmdByte :: command :: rest)
            = Done (c', 0, None).
Proof.
  split; [reflexivity |]. split; [reflexivity |].
  intros command rest.
  destruct (SendCommand_done respond c [command]) as (c' & e & E).
  exists c', e. split; [exact E |].
  unfold I2cBackpack.Write. cbn [Z.eqb I2cBackpack.cmdByte Pos.eqb].
  change (index (I2cBackpack.cmdByte :: command :: rest) 1)
    with (Done command).
  cbn [bind]. rewrite E. reflexivity.
Qed.

(** * The HD44780 driver *)

Lemma lor_high_bit (x : Z) : 0 <= x < 128 -> Z.lor 0x80 x = 0x80 + x.
Proof.
  intros Hx.
  assert (Hl : Z.land 0x80 x = 0).
  { rewrite Z.land_comm. change 0x80 with (2 ^ 7).
    rewrite land_pow2 by lia.
    assert (Hb : Z.testbit x 7 = false).
    { apply Z.testbit_false; [lia |]. change (2 ^ 7) with 128.
      rewrite Z.div_small by lia. reflexivity. }
    rewrite Hb. reflexivity. }
  rewrite <- Z.lxor_lor by exact Hl. symmetry.
  apply Z.add_nocarry_lxor. exact Hl.
Qed.

(** The address of a row's first column, as the two tables give it. *)
Lemma getRowConstant_rows (row maxcols : Z) :
  1 <= row <= (if maxcols =? 16 then 2 else 4) ->
  Hd44780.getRowConstant row maxcols
  = Done (if row =? 1 then 0 else if row =? 2 then 64
          else if row =? 3 then 20 else 84).
Proof.
  intros Hr. unfold Hd44780.getRowConstant.
  destruct (maxcols =? 16); cbn [negb].
  - assert (Hc : row = 1 \/ row = 2) by lia.
    destruct Hc as [-> | ->]; reflexivity.
  - assert (Hc : row = 1 \/ row = 2 \/ row = 3 \/ row = 4) by lia.
    destruct Hc as [-> | [-> | [-> | ->]]]; reflexivity.
Qed.

Lemma MoveTo_in_range (lcd : Hd44780.HD44780) (row col : Z) :
  Hd44780.cols lcd <= 20 ->
  Hd44780.rows lcd <= (if Hd44780.cols lcd =? 16 then 2 else 4) ->
  1 <= row <= Hd44780.rows lcd ->
  1 <= col <= Hd44780.cols lcd ->
  Hd44780.MoveTo lcd row col
  = Done [[0xfe;
           0x80 + ((if row =? 1 then 0 else if row =? 2 then 64
                    else if row =? 3 then 20 else 84) + (col - 1))]].
Proof.
  intros Hcols Hrows Hr Hc. unfold Hd44780.MoveTo, Hd44780.MinRow, Hd44780.MinCol.
  rewrite !Z.gtb_ltb.
  rewrite (proj2 (Z.ltb_ge row 1)), (proj2 (Z.ltb_ge (Hd44780.rows lcd) row)),
    (proj2 (Z.ltb_ge col 1)), (proj2 (Z.ltb_ge (Hd44780.cols lcd) col)) by lia.
  cbn [orb].
  change (Hd44780.getCommand Command.setCursorPosition)
    with (Done [Command.cmdByte; 0x80]).
  cbn [bind]. change (index [Command.cmdByte; 0x80] 1) with (Done 0x80).
  cbn [bind]. rewrite getRowConstant_rows by lia. cbn [bind store].
  set (rc := if row =? 1 then 0 else if row =? 2 then 64
             else if row =? 3 then 20 else 84).
  assert (Hrc : 0 <= rc <= 84).
  { subst rc. destruct (row =? 1); [lia |]. destruct (row =? 2); [lia |].
    destruct (row =? 3); lia. }
  unfold to_byte. rewrite (Z.mod_small (col - 1)) by lia.
  rewrite Z.mod_small by lia. rewrite lor_high_bit by lia. reflexivity.
Qed.

(** X14.  On a display of at most 20 columns, with up to 2 rows when it
    has 16 columns and up to 4 rows otherwise, [MoveTo] to a position of
    the display writes one two-byte frame, 0xfe and 0x80 plus an address
    below 0x80, and two different positions never get the same
    address. *)
Theorem MoveTo_addresses_are_distinct
    (lcd : Hd44780.HD44780) (r1 c1 r2 c2 : Z) :
  Hd44780.cols lcd <= 20 ->
  Hd44780.rows lcd <= (if Hd44780.cols lcd =? 16 then 2 else 4) ->
  1 <= r1 <= Hd44780.rows lcd -> 1 <= c1 <= Hd44780.cols lcd ->
  1 <= r2 <= Hd44780.rows lcd -> 1 <= c2 <= Hd44780.cols lcd ->
  exists a1 a2,
    Hd44780.MoveTo lcd r1 c1 = Done [[0xfe; 0x80 + a1]]
    /\ Hd44780.MoveTo lcd r2 c2 = Done [[0xfe; 0x80 + a2]]
    /\ 0 <= a1 < 0x80 /\ 0 <= a2 < 0x80
    /\ (a1 = a2 -> r1 = r2 /\ c1 = c2).
Proof.
  intros Hcols Hrows Hr1 Hc1 Hr2 Hc2.
  rewrite (MoveTo_in_range lcd r1 c1), (MoveTo_in_range lcd r2 c2) by assumption.
  eexists. eexists. split; [reflexivity |]. split; [reflexivity |].
  assert (Hrows4 : Hd44780.rows lcd <= 4)
    by (destruct (Hd44780.cols lcd =? 16); lia).
  assert (K1 : r1 = 1 \/ r1 = 2 \/ r1 = 3 \/ r1 = 4) by lia.
  assert (K2 : r2 = 1 \/ r2 = 2 \/ r2 = 3 \/ r2 = 4) by lia.
  destruct K1 as [-> | [-> | [-> | ->]]];
    destruct K2 as [-> | [-> | [-> | ->]]];
    cbn [Z.eqb Pos.eqb]; lia.
Qed.

(** The theorem on a display of 4 rows and 20 columns. *)
Lemma MoveTo_addresses_are_distinct_witness :
  exists a1 a2,
    Hd44780.MoveTo (Hd44780.NewHD44780 4 20) 3 1 = Done [[0xfe; 0x80 + a1]]
    /\ Hd44780.MoveTo (Hd44780.NewHD44780 4 20) 1 20 = Done [[0xfe; 0x80 + a2]]
    /\ 0 <= a1 < 0x80 /\ 0 <= a2 < 0x80
    /\ (a1 = a2 -> 3 = 1 /\ 1 = 20).
Proof.
  apply (MoveTo_addresses_are_distinct (Hd44780.NewHD44780 4 20) 3 1 1 20);
    vm_compute; try split; discriminate.
Defined.

(** X15.  [MoveTo] outside the display writes nothing.  Inside it, a row
    past the end of the row table panics: row 3 and up on a display of 16
    columns, row 5 and up on any other. *)
Theorem MoveTo_edges (lcd : Hd44780.HD44780) (row col : Z) :
  (row < 1 \/ Hd44780.rows lcd < row \/ col < 1 \/ Hd44780.cols lcd < col ->
   Hd44780.MoveTo lcd row col = Done [])
  /\ (1 <= row <= Hd44780.rows lcd -> 1 <= col <= Hd44780.cols lcd ->
      (if Hd44780.cols lcd =? 16 then 3 else 5) <= row ->
      Hd44780.MoveTo lcd row col = Panic).
Proof.
  unfold Hd44780.MoveTo, Hd44780.MinRow, Hd44780.MinCol.
  rewrite !Z.gtb_ltb. split.
  - intros H.
    destruct (Z.ltb_spec row 1); [reflexivity |].
    destruct (Z.ltb_spec (Hd44780.rows lcd) row); [reflexivity |].
    destruct (Z.ltb_spec col 1); [reflexivity |].
    destruct (Z.ltb_spec (Hd44780.cols lcd) col); [reflexivity |]. lia.
  - intros Hr Hc Hrow.
    rewrite (proj2 (Z.ltb_ge row 1)), (proj2 (Z.ltb_ge (Hd44780.rows lcd) row)),
      (proj2 (Z.ltb_ge col 1)), (proj2 (Z.ltb_ge (Hd44780.cols lcd) col)) by lia.
    cbn [orb].
    change (Hd44780.getCommand Command.setCursorPosition)
      with (Done [Command.cmdByte; 0x80]).
    cbn [bind]. change (index [Command.cmdByte; 0x80] 1) with (Done 0x80).
    cbn [bind]. unfold Hd44780.getRowConstant.
    destruct (Hd44780.cols lcd =? 16); cbn [negb];
      [change (index Hd44780.rowConstants 0) with (Done [0; 0; 64])
      | change (index Hd44780.rowConstants 1) with (Done [0; 0; 64; 20; 84])];
      cbn [bind]; rewrite index_out_of_range by (right; cbn [length]; lia);
      reflexivity.
Qed.

(** The theorem at row 3 of a display of 4 rows and 16 columns, and at
    row 0. *)
Lemma MoveTo_edges_witness :
  Hd44780.MoveTo (Hd44780.NewHD44780 4 16) 0 1 = Done []
  /\ Hd44780.MoveTo (Hd44780.NewHD44780 4 16) 3 1 = Panic.
Proof.
  destruct (MoveTo_edges (Hd44780.NewHD44780 4 16) 0 1) as [Hout _].
  destruct (MoveTo_edges (Hd44780.NewHD44780 4 16) 3 1) as [_ Hpanic].
  split.
  - apply Hout. left. reflexivity.
  - apply Hpanic; vm_compute; try split; discriminate.
Defined.

(** * The command tables and the USB backpack *)

Lemma command_cases (id : Z) :
  0 <= id <= 12 ->
  id = 0 \/ id = 1 \/ id = 2 \/ id = 3 \/ id = 4 \/ id = 5 \/ id = 6
  \/ id = 7 \/ id = 8 \/ id = 9 \/ id = 10 \/ id = 11 \/ id = 12.
Proof. lia. Qed.

Ltac each_command H :=
  destruct H as [-> | [-> | [-> | [-> | [-> | [-> | [-> | [-> | [->
    | [-> | [-> | [-> | ->]]]]]]]]]]]].

Lemma usbCommand_unknown (id : Z) :
  ~ 0 <= id <= 12 -> UsbBackpack.usbCommand id = Fatal.
Proof.
  intros H. unfold UsbBackpack.usbCommand, Command.autoScrollOff,
    Command.autoScrollOn, Command.blockCursorOff, Command.blockCursorOn,
    Command.clearScreen, Command.cursorBack, Command.cursorForward,
    Command.displayOff, Command.displayOn, Command.goHome,
    Command.setCursorPosition, Command.underlineCursorOff,
    Command.underlineCursorOn.
  repeat (rewrite (proj2 (Z.eqb_neq id _)) by lia). reflexivity.
Qed.

Lemma getCommand_unknown (id : Z) :
  ~ 0 <= id <= 12 -> Hd44780.getCommand id = Fatal.
Proof.
  intros H. unfold Hd44780.getCommand, Command.autoScrollOff,
    Command.autoScrollOn, Command.clearScreen, Command.cursorBack,
    Command.cursorForward, Command.displayOff, Command.displayOn,
    Command.goHome, Command.setCursorPosition, Command.underlineCursorOff,
    Command.underlineCursorOn.
  repeat (rewrite (proj2 (Z.eqb_neq id _)) by lia). reflexivity.
Qed.

(** X16.  The command table of the USB backpack knows exactly the
    thirteen command ids 0 to 12, answers each with 0xfe and one byte, and
    gives different ids different bytes; any other id ends the program in
    [log.Fatal].  The table of the HD44780 does the same but for the two
    block-cursor ids 2 and 3, which it does not know either. *)
Theorem command_tables (id : Z) :
  (UsbBackpack.usbCommand id = Fatal <-> ~ 0 <= id <= 12)
  /\ (Hd44780.getCommand id = Fatal <-> ~ 0 <= id <= 12 \/ id = 2 \/ id = 3)
  /\ (UsbBackpack.usbCommand id <> Fatal ->
      (exists b, UsbBackpack.usbCommand id = Done [0xfe; b])
      /\ forall id', UsbBackpack.usbCommand id' = UsbBackpack.usbCommand id ->
                     id' = id)
  /\ (Hd44780.getCommand id <> Fatal ->
      (exists b, Hd44780.getCommand id = Done [0xfe; b])
      /\ forall id', Hd44780.getCommand id' = Hd44780.getCommand id ->
                     id' = id).
Proof.
  assert (Hdec : 0 <= id <= 12 \/ ~ 0 <= id <= 12) by lia.
  destruct Hdec as [Hin | Hout].
  2: { pose proof (usbCommand_unknown id Hout) as Eu.
       pose proof (getCommand_unknown id Hout) as Eg.
       split; [split; [intros _; exact Hout | intros _; exact Eu] |].
       split; [split; [intros _; left; exact Hout | intros _; exact Eg] |].
       split; intros Hn; exfalso; apply Hn; assumption. }
  pose proof (command_cases id Hin) as K.
  split; [| split; [| split]].
  - split; [| intros H; exfalso; apply H; exact Hin].
    each_command K; discriminate.
  - split.
    + each_command K; try discriminate; intros _; right; auto.
    + intros [H | [-> | ->]];
        [exfalso; apply H; exact Hin | reflexivity | reflexivity].
  - intros _. split; [each_command K; eexists; reflexivity |].
    intros id' E.
    assert (Hdec' : 0 <= id' <= 12 \/ ~ 0 <= id' <= 12) by lia.
    destruct Hdec' as [Hin' | Hout'].
    2: { rewrite (usbCommand_unknown id' Hout') in E.
         each_command K; discriminate E. }
    pose proof (command_cases id' Hin') as K'.
    each_command K; each_command K'; solve [reflexivity | discriminate E].
  - intros Hn. split.
    + each_command K; try (eexists; reflexivity); exfalso; apply Hn; reflexivity.
    + intros id' E.
      assert (Hdec' : 0 <= id' <= 12 \/ ~ 0 <= id' <= 12) by lia.
      destruct Hdec' as [Hin' | Hout'].
      2: { rewrite (getCommand_unknown id' Hout') in E.
           exfalso; apply Hn; symmetry; exact E. }
      pose proof (command_cases id' Hin') as K'.
      each_command K; each_command K';
        solve [reflexivity | discriminate E | exfalso; apply Hn; reflexivity].
Qed.

(** X17.  [SetBacklight], [SetContrast] and [setGPO] of the USB backpack
    pass 0x99, 0x50, 0x57 and 0x56 as command ids; the command table
    knows none of them, so each call ends the program in [log.Fatal]
    before anything is sent. *)
Theorem usb_backlight_contrast_gpo_are_fatal {error : Type}
    (respond : responder error) (c : conn) (x : Z) (on : bool) :
  UsbBackpack.SetBacklight respond c x = Fatal
  /\ UsbBackpack.SetContrast respond c x = Fatal
  /\ UsbBackpack.setGPO respond c x on = Fatal.
Proof.
  split; [reflexivity |]. split; [reflexivity |]. destruct on; reflexivity.
Qed.

(** X18.  On the USB backpack [MoveTo] outside the display, and so
    [Home] on a display without rows or columns, sends nothing; inside a
    display of at most 255 rows and columns it sends the one frame
    0xfe 0x47 row col. *)
Theorem usb_MoveTo_frames {error : Type} (respond : responder error)
    (lcd : UsbBackpack.USBLCDBackpack) (c : conn) (row col : Z) :
  (row < 1 \/ UsbBackpack.rows lcd < row
   \/ col < 1 \/ UsbBackpack.cols lcd < col ->
   UsbBackpack.MoveTo respond lcd c row col = Done c)
  /\ (UsbBackpack.rows lcd < 1 \/ UsbBackpack.cols lcd < 1 ->
      UsbBackpack.Home respond lcd c = Done c)
  /\ (1 <= row <= UsbBackpack.rows lcd -> 1 <= col <= UsbBackpack.cols lcd ->
      UsbBackpack.rows lcd <= 255 -> UsbBackpack.cols lcd <= 255 ->
      UsbBackpack.MoveTo respond lcd c row col
      = Done (c ++ [[0xfe; 0x47; row; col]])).
Proof.
  assert (Hout : forall r k,
            r < 1 \/ UsbBackpack.rows lcd < r
            \/ k < 1 \/ UsbBackpack.cols lcd < k ->
            UsbBackpack.MoveTo respond lcd c r k = Done c).
  { intros r k H. unfold UsbBackpack.MoveTo. rewrite !Z.gtb_ltb.
    destruct (Z.ltb_spec r 1); [reflexivity |].
    destruct (Z.ltb_spec (UsbBackpack.rows lcd) r); [reflexivity |].
    destruct (Z.ltb_spec k 1); [reflexivity |].
    destruct (Z.ltb_spec (UsbBackpack.cols lcd) k); [reflexivity |]. lia. }
  split; [apply Hout |]. split.
  - intros H. apply Hout. lia.
  - intros Hr Hc Hrows Hcols. unfold UsbBackpack.MoveTo. rewrite !Z.gtb_ltb.
    rewrite (proj2 (Z.ltb_ge row 1)),
      (proj2 (Z.ltb_ge (UsbBackpack.rows lcd) row)),
      (proj2 (Z.ltb_ge col 1)),
      (proj2 (Z.ltb_ge (UsbBackpack.cols lcd) col)) by lia.
    cbn [orb]. unfold to_byte. rewrite !Z.mod_small by lia. reflexivity.
Qed.

(** The theorem on a display of 2 rows and 16 columns. *)
Lemma usb_MoveTo_frames_witness :
  UsbBackpack.MoveTo quiet (UsbBackpack.mkUSBLCDBackpack 2 16) [] 3 1 = Done []
  /\ UsbBackpack.Home quiet (UsbBackpack.mkUSBLCDBackpack 0 16) [] = Done []
  /\ UsbBackpack.MoveTo quiet (UsbBackpack.mkUSBLCDBackpack 2 16) [] 2 5
     = Done [[0xfe; 0x47; 2; 5]].
Proof.
  destruct (usb_MoveTo_frames quiet (UsbBackpack.mkUSBLCDBackpack 2 16) [] 3 1)
    as (Hout & _ & _).
  destruct (usb_MoveTo_frames quiet (UsbBackpack.mkUSBLCDBackpack 0 16) [] 1 1)
    as (_ & Hhome & _).
  destruct (usb_MoveTo_frames quiet (UsbBackpack.mkUSBLCDBackpack 2 16) [] 2 5)
    as (_ & _ & Hin).
  split; [| split].
  - apply Hout. right; left. reflexivity.
  - apply Hhome. left. reflexivity.
  - apply Hin; vm_compute; try split; discriminate.
Defined.

(** * Errors on the bus *)

(** X19.  [SetPullup] on a pin from 0 to 7 reads GPPU once.  When the
    pin already has the state asked for it writes nothing and returns no
    error, also when the read failed; otherwise it writes the changed
    byte and returns the error of the read, not the one of the write. *)
Theorem SetPullup_reports_the_read {error : Type} (respond : responder error)
    (c : conn) (pin : Z) (state : bool) :
  0 <= pin < 8 ->
  let cur := byte_value (fst (respond c [Mcp23008.GPPU])) in
  exists v,
    Mcp23008.SetBit cur pin state = Done v
    /\ Mcp23008.SetPullup respond c pin state
       = if Bool.eqb (Z.testbit cur pin) state
         then Done (c ++ [[Mcp23008.GPPU]], None)
         else Done (c ++ [[Mcp23008.GPPU]; [Mcp23008.GPPU; v]],
                    snd (respond c [Mcp23008.GPPU])).
Proof.
  intros Hpin cur.
  destruct (SetBit_bits cur pin state (byte_value_range _) Hpin)
    as (v & E & R & B).
  exists v. split; [exact E |].
  unfold Mcp23008.SetPullup, Mcp23008.ReadRegister, Mcp23008.WriteRegister, Tx.
  fold cur. rewrite E. cbn [bind].
  destruct (Z.eqb_spec v cur) as [Heq | Hne].
  - assert (Hb : Z.testbit cur pin = state).
    { rewrite <- Heq at 1. rewrite B by lia. rewrite Z.eqb_refl. reflexivity. }
    rewrite Hb, Bool.eqb_reflx. reflexivity.
  - assert (Hb : Bool.eqb (Z.testbit cur pin) state = false).
    { apply Bool.eqb_false_iff. intros Hb. apply Hne.
      apply Z.bits_inj'. intros j Hj. rewrite B by lia.
      destruct (Z.eqb_spec j pin) as [-> | _]; [symmetry; exact Hb | reflexivity]. }
    rewrite Hb, <- app_assoc. reflexivity.
Qed.

(** The theorem on a device that answers 0: pulling pin 2 up writes
    0x04 to GPPU. *)
Lemma SetPullup_reports_the_read_witness :
  Mcp23008.SetPullup quiet [] 2 true = Done ([[6]; [6; 0x04]], None).
Proof.
  destruct (SetPullup_reports_the_read quiet [] 2 true)
    as (v & E & Hw); [vm_compute; split; [discriminate | reflexivity] |].
  vm_compute in E. injection E as <-. exact Hw.
Defined.

(** X20.  [Write] on the backpack, given data (a slice that is not
    empty and does not start with 0xfe), never panics and returns
    [n = len(p)] whatever the bus did, with or without an error. *)
Theorem backpack_Write_data_length {error : Type} (respond : responder error)
    (c : conn) (p0 : Z) (rest : list Z) :
  p0 <> I2cBackpack.cmdByte ->
  exists c' e,
    I2cBackpack.Write respond c (p0 :: rest)
    = Done (c', Z.of_nat (length (p0 :: rest)), e).
Proof.
  intros Hp. unfold I2cBackpack.Write.
  rewrite (proj2 (Z.eqb_neq _ _) Hp).
  destruct (WriteGPIOPin_effect respond c I2cBackpack.rsPin
              I2cBackpack.modeData) as (v & _ & E);
    [unfold I2cBackpack.rsPin; lia |].
  rewrite E.
  destruct (Bool.eqb _ _); cbn [bind];
    try match goal with
        | |- context [match ?e with Some _ => _ | None => _ end] => destruct e
        end;
    try (destruct (I2cBackpack.write_bytes _ _ _));
    eexists; eexists; reflexivity.
Qed.

(** The theorem on two data bytes sent to a device that answers 0. *)
Lemma backpack_Write_data_length_witness :
  exists c' e, I2cBackpack.Write quiet [] [0x48; 0x69] = Done (c', 2, e).
Proof.
  apply (backpack_Write_data_length quiet [] 0x48 [0x69]). discriminate.
Defined.

(** * The sends, with both goroutines *)

(** Cutting an iteration at its send loses nothing: run to the end it is
    the iteration of [rotaryHandler], or of [buttonHandler]. *)
Lemma rotaryHandler_split (sw : RotarySwitch) (d s : Level) :
  rotaryHandler sw d s
  = match rotary_until_send sw d s with
    | Returned => Return
    | Waiting sw' => Continue sw'
    | AtSend sw' v =>
        match rotary_send sw' v with
        | Some sw'' => Continue sw''
        | None => Blocked sw' v
        end
    end.
Proof.
  unfold rotaryHandler, rotary_until_send, rotary_send. cbv zeta.
  repeat match goal with
         | |- context [if ?c then _ else _] => destruct c
         end;
    try reflexivity;
    match goal with
    | |- context [send ?c ?v] => destruct (send c v); reflexivity
    end.
Qed.

Lemma buttonHandler_split (sw : RotarySwitch) (lvl : Level) :
  buttonHandler sw lvl
  = match button_until_send sw lvl with
    | Returned => Return
    | Waiting sw' => Continue sw'
    | AtSend sw' v =>
        match button_send sw' v lvl with
        | Some sw'' => Continue sw''
        | None => Blocked sw' v
        end
    end.
Proof.
  unfold buttonHandler, button_until_send, button_send. cbv zeta.
  repeat match goal with
         | |- context [if ?c then _ else _] => destruct c
         end;
    try reflexivity;
    match goal with
    | |- context [send ?c ?v] => destruct (send c v); reflexivity
    end.
Qed.

(** Up to its send, [rotaryHandler] leaves the channel alone, and it
    comes to the send only past its capacity test. *)
Lemma rotary_until_send_frame (sw : RotarySwitch) (d s : Level) :
  match rotary_until_send sw d s with
  | Returned => terminating sw = true
  | Waiting sw' =>
      ch sw' = ch sw /\ channelSize sw' = channelSize sw
  | AtSend sw' v =>
      ch sw' = ch sw /\ channelSize sw' = channelSize sw
      /\ len (ch sw) <> channelSize sw
      /\ terminating sw' = false /\ last_button sw' = last_button sw
  end.
Proof.
  unfold rotary_until_send. cbv zeta.
  destruct (terminating sw) eqn:Hrun; [reflexivity |].
  rewrite (shift_sample_frame sw d s). fields.
  destruct (Z.eqb_spec (len (ch sw)) (channelSize sw)) as [Hfull | Hne];
    [split; reflexivity |].
  repeat match goal with
         | |- context [if ?c then _ else _] => destruct c
         end; fields; repeat split; auto.
Qed.

Lemma play_app (w : world) (es es' : list event) :
  play w (es ++ es') = play (play w es) es'.
Proof. apply fold_left_app. Qed.

Lemma advance_sole_producer (w : world) (e : event) :
  sole_producer_inv w -> no_button e = true -> sole_producer_inv (advance w e).
Proof.
  intros Hinv He. pose proof Hinv as ((Hcap & Hlen) & Hsize & Hb & Hroom).
  destruct e as [d s | | lvl | | | mode | mode]; try discriminate He;
    cbn [advance].
  - destruct (rotary_at w) as [v |] eqn:Hat; [exact Hinv |].
    pose proof (rotary_until_send_frame (shared w) d s) as F.
    destruct (rotary_until_send (shared w) d s) as [| sw' | sw' v].
    + exact Hinv.
    + destruct F as (Ec & Es). unfold sole_producer_inv, chan_ok.
      cbn [shared rotary_at button_at]. rewrite Ec, Es.
      repeat split; try assumption; try (intros v E; discriminate E).
    + destruct F as (Ec & Es & Hne & _). unfold sole_producer_inv, chan_ok.
      cbn [shared rotary_at button_at]. rewrite Ec, Es.
      repeat split; try assumption; try (intros; lia).
  - destruct (rotary_at w) as [v |] eqn:Hat; [| exact Hinv].
    assert (Hlt : len (ch (shared w)) < channelSize (shared w))
      by (apply (Hroom v); reflexivity).
    unfold rotary_send, send.
    rewrite (proj2 (Z.ltb_lt _ _)) by lia.
    unfold sole_producer_inv, chan_ok, len in *.
    cbn [shared rotary_at button_at]. fields. rewrite length_app. cbn [length].
    repeat split; try assumption; try lia; try (intros v' E; discriminate E).
  - unfold recv. destruct (buf (ch (shared w))) as [| v rest] eqn:Hbuf;
      [exact Hinv |].
    unfold sole_producer_inv, chan_ok, len in *.
    cbn [shared rotary_at button_at]. fields. rewrite Hbuf in *.
    cbn [length] in *. repeat split; try assumption; try lia;
      try (intros v' E; specialize (Hroom v' E); lia).
  - unfold sole_producer_inv, chan_ok in *.
    cbn [shared rotary_at button_at]. fields. repeat split; assumption.
  - unfold sole_producer_inv, chan_ok in *.
    cbn [shared rotary_at button_at]. fields. repeat split; assumption.
Qed.

Lemma play_sole_producer (es : list event) (w : world) :
  sole_producer_inv w -> forallb no_button es = true ->
  sole_producer_inv (play w es).
Proof.
  revert w. induction es as [| e rest IH]; intros w Hinv Hes; [exact Hinv |].
  cbn [forallb] in Hes. apply andb_prop in Hes as [He Hrest].
  unfold play. cbn [fold_left]. apply IH; [| exact Hrest].
  apply advance_sole_producer; assumption.
Qed.

Lemma start_sole_producer (maxPositions : Z) :
  sole_producer_inv (start maxPositions).
Proof.
  split; [apply chan_ok_new |]. split; [reflexivity |].
  split; [reflexivity |]. intros v E. discriminate E.
Qed.

(** X1.  On a switch built without a button pin, where [rotaryHandler]
    is the only goroutine that sends, the capacity test protects the
    send: whatever state-pin edges, receives and setter calls come, and
    whatever of them come between the test and the send of an iteration,
    [rotaryHandler] is never blocked in its send, and the channel never
    holds more than its sixteen events. *)
Theorem sole_producer_never_blocks (maxPositions : Z) (es : list event) :
  forallb no_button es = true ->
  ~ rotary_blocked (play (start maxPositions) es)
  /\ cap (ch (shared (play (start maxPositions) es))) = 16
  /\ 0 <= len (ch (shared (play (start maxPositions) es))) <= 16.
Proof.
  intros Hes.
  destruct (play_sole_producer es _ (start_sole_producer maxPositions) Hes)
    as ((Hcap & Hlen) & Hsize & _ & Hroom).
  split; [| split].
  - intros (v & Hat & Hs). specialize (Hroom v Hat).
    unfold send in Hs. rewrite (proj2 (Z.ltb_lt _ _)) in Hs by lia.
    discriminate Hs.
  - rewrite Hcap. exact Hsize.
  - unfold len in *. lia.
Qed.

(** The theorem on seventeen clockwise turns, the consumer taking one
    event between the test and the send of the last. *)
Lemma sole_producer_never_blocks_witness :
  ~ rotary_blocked
      (play (start 24)
         (concat (repeat [StateEdgeSeen High Low; StateEdgeSeen Low High;
                          RotarySends] 16)
            ++ [Consumes; StateEdgeSeen High Low; StateEdgeSeen Low High;
                Consumes; RotarySends]))
  /\ cap (ch (shared
               (play (start 24)
                  (concat (repeat [StateEdgeSeen High Low;
                                   StateEdgeSeen Low High; RotarySends] 16)
                     ++ [Consumes; StateEdgeSeen High Low;
                         StateEdgeSeen Low High; Consumes; RotarySends]))))
     = 16
  /\ 0 <= len (ch (shared
                    (play (start 24)
                       (concat (repeat [StateEdgeSeen High Low;
                                        StateEdgeSeen Low High; RotarySends] 16)
                          ++ [Consumes; StateEdgeSeen High Low;
                              StateEdgeSeen Low High; Consumes;
                              RotarySends]))))
     <= 16.
Proof.
  apply (sole_producer_never_blocks 24). reflexivity.
Defined.

Lemma rotary_until_send_pattern (sw : RotarySwitch) (d s : Level) :
  terminating sw = false ->
  len (ch sw) <> channelSize sw ->
  (state (shift_sample sw d s) = 0x06
   \/ (loose sw = true /\ state (shift_sample sw d s) = 0x07)
   \/ state (shift_sample sw d s) = 0x03) ->
  exists sw' v,
    rotary_until_send sw d s = AtSend sw' v
    /\ ch sw' = ch sw /\ channelSize sw' = channelSize sw
    /\ terminating sw' = false /\ last_button sw' = last_button sw.
Proof.
  intros Hrun Hne Hpat.
  pose proof (rotary_until_send_frame sw d s) as F.
  destruct (rotary_until_send sw d s) as [| sw' | sw' v] eqn:E.
  - congruence.
  - exfalso. revert E. unfold rotary_until_send. cbv zeta. rewrite Hrun.
    rewrite (shift_sample_frame sw d s). fields.
    rewrite (proj2 (Z.eqb_neq _ _) Hne).
    destruct Hpat as [-> | [[-> ->] | ->]]; cbn [Z.eqb Pos.eqb orb andb];
      rewrite ?Bool.andb_false_r; cbn [orb]; discriminate.
  - exists sw', v. split; [reflexivity |].
    destruct F as (Ec & Es & _ & Ht & El). auto.
Qed.

Lemma button_until_send_change (sw : RotarySwitch) (lvl : Level) :
  terminating sw = false ->
  len (ch sw) < channelSize sw ->
  lvl <> last_button sw ->
  exists v, button_until_send sw lvl = AtSend sw v.
Proof.
  intros Hrun Hroom Hl. unfold button_until_send. rewrite Hrun.
  rewrite (proj2 (Z.ltb_lt _ _) Hroom).
  destruct lvl, (last_button sw); try congruence; eexists; reflexivity.
Qed.

(** X21.  With both handlers running the capacity test does not protect
    the send.  On a running switch with one place left in the channel,
    let a state-pin edge complete a pattern and a button edge read a
    changed level, both handlers passing their capacity test before
    either sends: the handler that sends first fills the channel and the
    other is blocked in its send, [rotaryHandler] if the button sends
    first and [buttonHandler] if the rotary sends first. *)
Theorem second_sender_blocks (sw : RotarySwitch) (d s lvl : Level) :
  terminating sw = false ->
  chan_ok sw ->
  len (ch sw) = channelSize sw - 1 ->
  (state (shift_sample sw d s) = 0x06
   \/ (loose sw = true /\ state (shift_sample sw d s) = 0x07)
   \/ state (shift_sample sw d s) = 0x03) ->
  lvl <> last_button sw ->
  rotary_blocked
    (play (mkWorld sw None None)
       [StateEdgeSeen d s; ButtonEdgeSeen lvl; ButtonSends; RotarySends])
  /\ button_blocked
       (play (mkWorld sw None None)
          [StateEdgeSeen d s; ButtonEdgeSeen lvl; RotarySends; ButtonSends]).
Proof.
  intros Hrun [Hcap Hlen] Hone Hpat Hl.
  destruct (rotary_until_send_pattern sw d s Hrun) as
    (sw1 & v & E1 & Ec & Es & Hrun1 & El); [lia | exact Hpat |].
  destruct (button_until_send_change sw1 lvl Hrun1) as (bv & E2);
    [rewrite Ec, Es; lia | rewrite El; exact Hl |].
  assert (Hsend : forall x, send (ch sw1) x
                            = Some (mkChan (buf (ch sw1) ++ [x]) (cap (ch sw1)))).
  { intros x. unfold send. rewrite Ec, (proj2 (Z.ltb_lt _ _)) by lia.
    reflexivity. }
  assert (Hfull : forall x y,
            send (mkChan (buf (ch sw1) ++ [x]) (cap (ch sw1))) y = None).
  { intros x y. unfold send, len. cbn [buf cap]. rewrite length_app.
    cbn [length]. rewrite Ec. unfold len in Hone.
    rewrite (proj2 (Z.ltb_ge _ _)) by lia. reflexivity. }
  unfold play. cbn [fold_left advance rotary_at button_at shared].
  rewrite E1. cbn [advance rotary_at button_at shared]. rewrite E2.
  cbn [advance rotary_at button_at shared].
  unfold button_send, rotary_send. rewrite !Hsend.
  cbn [advance rotary_at button_at shared]. fields.
  unfold rotary_send, button_send. fields. rewrite !Hfull.
  split.
  - exists v. split; [reflexivity |]. cbn [shared]. fields. apply Hfull.
  - exists bv, lvl. split; [reflexivity |]. cbn [shared]. fields. apply Hfull.
Qed.

(** The theorem on a switch that holds fifteen events and stands in the
    middle of a clockwise turn, with the button going up. *)
Lemma second_sender_blocks_witness :
  rotary_blocked
    (play (mkWorld
             {| ch := mkChan (repeat DirectionCW 15) 16; channelSize := 16;
                position := 15; wrap_position := true; max_positions := 24;
                state := 0xd; last_button := Low; loose := true;
                terminating := false |} None None)
       [StateEdgeSeen Low High; ButtonEdgeSeen High; ButtonSends; RotarySends])
  /\ button_blocked
       (play (mkWorld
                {| ch := mkChan (repeat DirectionCW 15) 16; channelSize := 16;
                   position := 15; wrap_position := true; max_positions := 24;
                   state := 0xd; last_button := Low; loose := true;
                   terminating := false |} None None)
          [StateEdgeSeen Low High; ButtonEdgeSeen High; RotarySends;
           ButtonSends]).
Proof.
  apply (second_sender_blocks
           {| ch := mkChan (repeat DirectionCW 15) 16; channelSize := 16;
              position := 15; wrap_position := true; max_positions := 24;
              state := 0xd; last_button := Low; loose := true;
              terminating := false |} Low High High).
  - reflexivity.
  - split; [reflexivity | vm_compute; discriminate].
  - reflexivity.
  - left. reflexivity.
  - discriminate.
Defined.
